(** * venom: the execution orchestrator of process.go

    A shallow embedding of [Process], [runTestSuite], [runTestCase],
    [runTestStep] and [runTestStepExecutor] (package venom, process.go),
    and the properties of the orchestrator that follow from the code. *)

From Stdlib Require Import ZArith List Lia Bool String Ascii DecimalString.
From stdpp Require Import base strings gmap.
Import ListNotations.

Local Open Scope string_scope.
Local Open Scope Z_scope.

(** ** Go's [int] on a 64-bit platform

    Counters of process.go are Go [int]s.  They are embedded as [Z] with
    the two's-complement wrap-around of the additions and subtractions
    written out. *)
Module GoInt.

Definition min_int : Z := - 2 ^ 63.
Definition max_int : Z := 2 ^ 63 - 1.

Definition wrap (z : Z) : Z := (z + 2 ^ 63) mod 2 ^ 64 - 2 ^ 63.

Definition in_range (z : Z) : Prop := min_int <= z <= max_int.

(** [a + b], [a - b] and [a++] on int. *)
Definition add (a b : Z) : Z := wrap (a + b).
Definition sub (a b : Z) : Z := wrap (a - b).
Definition incr (a : Z) : Z := add a 1.

(** [len(s)] of a slice. *)
Definition len {A} (l : list A) : Z := Z.of_nat (List.length l).

End GoInt.

(** ** Package strings: [Split] and [Join] *)
Module Strings.

(** [splitOn c acc s]: the fields of [s] separated by the character [c];
    [acc] is the field being read, in reverse. *)
Fixpoint splitOn (c : ascii) (acc : string) (s : string) : list string :=
  match s with
  | EmptyString => [String.rev acc]
  | String x rest =>
      if Ascii.eqb x c then String.rev acc :: splitOn c EmptyString rest
      else splitOn c (String x acc) rest
  end.

(** [strings.Split(s, sep)] for a separator of one character, the only use
    in process.go.  A string without the separator is returned whole, as a
    slice of one element. *)
Definition Split (s : string) (sep : ascii) : list string :=
  splitOn sep EmptyString s.

(** [strings.Join(elems, sep)]. *)
Fixpoint Join (elems : list string) (sep : string) : string :=
  match elems with
  | [] => ""
  | [x] => x
  | x :: rest => x ++ sep ++ Join rest sep
  end.

(** [strings.Repeat(s, count)]: panics ([None]) on a negative count and
    when the length of the result overflows an int. *)
Fixpoint repeatString (s : string) (n : nat) : string :=
  match n with
  | O => ""
  | S n' => s ++ repeatString s n'
  end.

Definition Repeat (s : string) (count : Z) : option string :=
  if count <? 0 then None
  else if Z.of_nat (String.length s) * count >? GoInt.max_int then None
  else Some (repeatString s (Z.to_nat count)).

(** The slice expression [o[0:n]] on a string: panics ([None]) unless
    [0 <= n <= len(o)]. *)
Definition sliceTo (o : string) (n : Z) : option string :=
  if (n <? 0) || (Z.of_nat (String.length o) <? n) then None
  else Some (substring 0 (Z.to_nat n) o).

(** [s] with every occurrence of the character [c] taken out, and whether
    [c] occurs in [s]: what is left of, and lost from, a string that is
    split on [c] and joined again. *)
Fixpoint without (c : ascii) (s : string) : string :=
  match s with
  | EmptyString => EmptyString
  | String x rest =>
      if Ascii.eqb x c then without c rest else String x (without c rest)
  end.

Fixpoint contains (c : ascii) (s : string) : bool :=
  match s with
  | EmptyString => false
  | String x rest => Ascii.eqb x c || contains c rest
  end.

End Strings.

(** ** Alias parsing: the first loop of [Process] *)

(** The body of [for _, a := range alias]:
[[
    t := strings.Split(a, ":")
    if len(t) < 2 { continue }
    aliases[t[0]] = strings.Join(t[1:], "")
]]
*)
Definition parseAlias (aliases : gmap string string) (a : string)
  : gmap string string :=
  let t := Strings.Split a ":"%char in
  if GoInt.len t <? 2 then aliases
  else match t with
       | t0 :: t1 => <[ t0 := Strings.Join t1 "" ]> aliases
       | [] => aliases
       end.

(** [aliases = make(map[string]string)] followed by the loop. *)
Definition parseAliases (alias : list string) : gmap string string :=
  fold_left parseAlias alias ∅.

(** ** rightPad

[[
    o := s + strings.Repeat(padStr, pLen)
    return o[0:pLen]
]]
    [None] stands for a run-time panic. *)
Definition rightPad (s padStr : string) (pLen : Z) : option string :=
  match Strings.Repeat padStr pLen with
  | None => None
  | Some r => Strings.sliceTo (s ++ r) pLen
  end.

(** ** The result model (types.go is not part of the sources at hand; the
    records list the fields process.go reads and writes) *)

(** [error]: [None] is [nil], [Some msg] an error whose [Error()] is [msg]. *)
Definition error : Type := option string.

(** [Failure{Value: ...}]. *)
Record Failure : Type := mkFailure { Value : string }.

(** The verb [%d] of package fmt on an int. *)
Definition fmt_d (z : Z) : string := NilEmpty.string_of_int (Z.to_int z).

(** What one call of [e.executor.Run] amounts to for the caller that waits
    in the [select] of [runTestStepExecutor]: either the call returned its
    pair before the deadline was taken, or the deadline was taken first. *)
Inductive Attempt (R : Type) : Type :=
| Returned (result : R) (err : error)
| DeadlineFirst.
Arguments Returned {R} result err.
Arguments DeadlineFirst {R}.

Section Orchestrator.

(** [TestStep] is [map[string]interface{}]; process.go never looks inside. *)
Context {TestStep : Type}.
(** The non-nil values of [ExecutorResult], a Go map type. *)
Context {ResultMap : Type}.
(** Whatever the executors act on: network, files, clocks. *)
Context {World : Type}.

(** [ExecutorResult]: [None] is the nil map. *)
Definition ExecutorResult : Type := option ResultMap.

Definition StepAssertions : Type := list string.

(** The interface [Executor] with its optional capability
    [executorWithDefaultAssertions]: [GetDefaultAssertions] is [None] when
    the type assertion [e.executor.(executorWithDefaultAssertions)] fails. *)
Record Executor : Type := mkExecutor {
  Run : gmap string string -> TestStep -> World -> Attempt ExecutorResult * World;
  GetDefaultAssertions : option StepAssertions
}.

Record executorWrap : Type := mkExecutorWrap {
  executor : Executor;
  retry : Z;
  delay : Z;
  timeout : Z
}.

Record TestCase : Type := mkTestCase {
  tc_Name : string;
  tc_TestSteps : list TestStep;
  tc_Skipped : Z;
  tc_Failures : list Failure;
  tc_Errors : list Failure
}.

Record TestSuite : Type := mkTestSuite {
  ts_Name : string;
  ts_Package : string;
  ts_TestCases : list TestCase;
  ts_Total : Z;
  ts_Failures : Z;
  ts_Errors : Z;
  ts_Skipped : Z
}.

Record Tests : Type := mkTests {
  tr_TestSuites : list TestSuite;
  tr_TotalOK : Z;
  tr_TotalKO : Z;
  tr_TotalSkipped : Z;
  tr_Total : Z
}.

(** The two functions of the package that process.go calls and that are
    not in process.go: the resolution of a step to its executor binding
    ([Ok e] for [(e, nil)], [Err msg] for a non-nil error) and the check
    evaluator, which returns [(isOK, errors, failures)]. *)
Inductive resolved : Type :=
| Ok (e : executorWrap)
| Err (msg : string).

Variable getExecutorWrap : TestStep -> resolved.
Variable applyChecks :
  ExecutorResult -> TestStep -> option StepAssertions ->
  bool * list Failure * list Failure.

(** The package variable [aliases], fixed before any suite runs. *)
Variable aliases : gmap string string.

(** *** Effects

    The calls of [e.executor.Run] and of [time.Sleep] are the effects of
    the step runner.  They are recorded, in order, next to the world the
    executors act on.  Logging and the progress bars are left out. *)
Inductive Event : Type :=
| EvRun (step : TestStep)
| EvSleep (seconds : Z).

Record St : Type := mkSt {
  world : World;
  trace : list Event
}.

Definition emit (ev : Event) (st : St) : St :=
  {| world := world st; trace := trace st ++ [ev] |}.

(** *** runTestStepExecutor

    The goroutine sends [err] on [cherr] and only then [result] on [ch];
    both channels are unbuffered, so the [select] can never receive on [ch]
    before it has received on [cherr] (module [Race] below works this out
    on the interleavings).  The caller therefore leaves through
    [case err := <-cherr: return nil, err] or through [<-ctx.Done()]. *)
Definition selectReturn (e : executorWrap) (a : Attempt ExecutorResult)
  : ExecutorResult * error :=
  match a with
  | Returned result err => (None, err)
  | DeadlineFirst =>
      (None, Some ("Timeout after " ++ fmt_d (timeout e) ++ " second(s)"))
  end.

Definition runTestStepExecutor (e : executorWrap) (step : TestStep) (st : St)
  : (ExecutorResult * error) * St :=
  let '(a, w) := Run (executor e) aliases step (world st) in
  (selectReturn e a, {| world := w; trace := trace st ++ [EvRun step] |}).

(** *** runTestStep *)

(** The variables of the retry loop. *)
Record Loop : Type := mkLoop {
  l_retry : Z;
  l_isOK : bool;
  l_errors : list Failure;
  l_failures : list Failure;
  l_tc : TestCase;
  l_st : St
}.

Definition appendFailures (tc : TestCase) (fs : list Failure) : TestCase :=
  {| tc_Name := tc_Name tc; tc_TestSteps := tc_TestSteps tc;
     tc_Skipped := tc_Skipped tc;
     tc_Failures := tc_Failures tc ++ fs; tc_Errors := tc_Errors tc |}.

Definition appendErrors (tc : TestCase) (es : list Failure) : TestCase :=
  {| tc_Name := tc_Name tc; tc_TestSteps := tc_TestSteps tc;
     tc_Skipped := tc_Skipped tc;
     tc_Failures := tc_Failures tc; tc_Errors := tc_Errors tc ++ es |}.

(** One pass through the body of the [for].  The boolean is [true] when
    the body left through [break]; otherwise ([continue], or the end of
    the body) the post statement [retry++] follows and is included. *)
Definition attempt (e : executorWrap) (step : TestStep) (l : Loop)
  : Loop * bool :=
  let st1 :=
    if (l_retry l >? 1) && negb (l_isOK l)
    then emit (EvSleep (delay e)) (l_st l) else l_st l in
  let '((result, err), st2) := runTestStepExecutor e step st1 in
  match err with
  | Some msg =>
      ({| l_retry := GoInt.incr (l_retry l); l_isOK := l_isOK l;
          l_errors := l_errors l; l_failures := l_failures l;
          l_tc := appendFailures (l_tc l) [mkFailure msg]; l_st := st2 |},
       false)
  | None =>
      let '(isOK, errors, failures) :=
        applyChecks result step (GetDefaultAssertions (executor e)) in
      if isOK
      then ({| l_retry := l_retry l; l_isOK := isOK;
               l_errors := errors; l_failures := failures;
               l_tc := l_tc l; l_st := st2 |}, true)
      else ({| l_retry := GoInt.incr (l_retry l); l_isOK := isOK;
               l_errors := errors; l_failures := failures;
               l_tc := l_tc l; l_st := st2 |}, false)
  end.

(** [for retry = 0; retry <= e.retry && !isOK; retry++ { ... }].  The
    recursion is on a bound for the number of passes; [retryLoop_exits]
    shows that [passes e] is never what ends the loop when
    [retry e < max_int].  (With [retry e = max_int] the counter wraps and
    the condition [retry <= e.retry] cannot become false.) *)
Fixpoint retryLoop (n : nat) (e : executorWrap) (step : TestStep) (l : Loop)
  : Loop :=
  match n with
  | O => l
  | S n' =>
      if (l_retry l <=? retry e) && negb (l_isOK l)
      then let '(l', brk) := attempt e step l in
           if brk then l' else retryLoop n' e step l'
      else l
  end.

Definition passes (e : executorWrap) : nat := Z.to_nat (retry e + 1).

Definition syntheticFailure (retry : Z) : Failure :=
  mkFailure ("It's a failure after " ++ fmt_d retry ++ " attempt(s)").

Definition runTestStep (e : executorWrap) (tc : TestCase) (step : TestStep)
  (st : St) : TestCase * St :=
  let l := retryLoop (passes e) e step
             {| l_retry := 0; l_isOK := false; l_errors := [];
                l_failures := []; l_tc := tc; l_st := st |} in
  let tc1 := appendErrors (l_tc l) (l_errors l) in
  let tc2 := appendFailures tc1 (l_failures l) in
  let tc3 :=
    if (l_retry l >? 0)
       && ((GoInt.len (l_failures l) >? 0) || (GoInt.len (l_errors l) >? 0))
    then appendFailures tc2 [syntheticFailure (l_retry l)]
    else tc2 in
  (tc3, l_st l).

(** What [runTestStepExecutor] returns as its error to the successive
    attempts of one step, from the world [w] on ([None] for a call that
    returned without error, after which the checks are run): at most [n]
    attempts, and none after a checked attempt when the checks pass
    ([ok]).  The calls depend on the world only. *)
Fixpoint attemptErrors (e : executorWrap) (step : TestStep) (ok : bool)
  (n : nat) (w : World) : list error :=
  match n with
  | O => []
  | S n' =>
      let '(a, w') := Run (executor e) aliases step w in
      match snd (selectReturn e a) with
      | Some msg => Some msg :: attemptErrors e step ok n' w'
      | None => None :: (if ok then [] else attemptErrors e step ok n' w')
      end
  end.

(** *** runTestCase *)

(** [for _, step := range tc.TestSteps { ... }]. *)
Fixpoint caseLoop (steps : list TestStep) (tc : TestCase) (st : St)
  : TestCase * St :=
  match steps with
  | [] => (tc, st)
  | step :: rest =>
      match getExecutorWrap step with
      | Err msg => (appendErrors tc [mkFailure msg], st)
      | Ok e =>
          let '(tc1, st1) := runTestStep e tc step st in
          if GoInt.len (tc_Failures tc1) >? 0 then (tc1, st1)
          else caseLoop rest tc1 st1
      end
  end.

Definition runTestCase (tc : TestCase) (st : St) : TestCase * St :=
  caseLoop (tc_TestSteps tc) tc st.

(** *** runTestSuite *)

Definition setTestCases (ts : TestSuite) (cases : list TestCase) : TestSuite :=
  {| ts_Name := ts_Name ts; ts_Package := ts_Package ts;
     ts_TestCases := cases; ts_Total := ts_Total ts;
     ts_Failures := ts_Failures ts; ts_Errors := ts_Errors ts;
     ts_Skipped := ts_Skipped ts |}.

Definition setCounters (ts : TestSuite) (failures errors skipped : Z)
  : TestSuite :=
  {| ts_Name := ts_Name ts; ts_Package := ts_Package ts;
     ts_TestCases := ts_TestCases ts; ts_Total := ts_Total ts;
     ts_Failures := failures; ts_Errors := errors; ts_Skipped := skipped |}.

(** The three guarded additions that end the body of the loop over the
    cases, for the loop variable [tc]. *)
Definition countCase (tc : TestCase) (ts : TestSuite) : TestSuite :=
  setCounters ts
    (if GoInt.len (tc_Failures tc) >? 0
     then GoInt.add (ts_Failures ts) (GoInt.len (tc_Failures tc))
     else ts_Failures ts)
    (if GoInt.len (tc_Errors tc) >? 0
     then GoInt.add (ts_Errors ts) (GoInt.len (tc_Errors tc))
     else ts_Errors ts)
    (if tc_Skipped tc >? 0
     then GoInt.add (ts_Skipped ts) (tc_Skipped tc)
     else ts_Skipped ts).

(** [for i, tc := range ts.TestCases { ... }]: [cases] are the elements
    still to visit, [i] the index of the first of them.  [tc] is a copy;
    [ts.TestCases[i] = tc] writes it back, for a case that was run. *)
Fixpoint suiteLoop (i : nat) (cases : list TestCase) (ts : TestSuite) (st : St)
  : TestSuite * St :=
  match cases with
  | [] => (ts, st)
  | tc :: rest =>
      let '(tc1, ts1, st1) :=
        if tc_Skipped tc =? 0
        then let '(tc', st') := runTestCase tc st in
             (tc', setTestCases ts (<[ i := tc' ]> (ts_TestCases ts)), st')
        else (tc, ts, st) in
      suiteLoop (S i) rest (countCase tc1 ts1) st1
  end.

Definition runTestSuite (ts : TestSuite) (st : St) : TestSuite * St :=
  suiteLoop 0 (ts_TestCases ts) ts st.

(** *** Process: what the parse task does to a decoded suite *)

(** [if tc.Skipped == 1 { ts.Skipped++ }], over the cases. *)
Definition scanSkipped (cases : list TestCase) (skipped : Z) : Z :=
  fold_left
    (fun sk tc => if tc_Skipped tc =? 1 then GoInt.incr sk else sk)
    cases skipped.

(** From [ts.Name += " [" + f + "]"] to [ts.Total = len(ts.TestCases)],
    for the suite [ts] that [yaml.Unmarshal] filled from the file [f]. *)
Definition prepareSuite (f : string) (ts : TestSuite) : TestSuite :=
  {| ts_Name := ts_Name ts ++ " [" ++ f ++ "]";
     ts_Package := ts_Package ts;
     ts_TestCases := ts_TestCases ts;
     ts_Total := GoInt.len (ts_TestCases ts);
     ts_Failures := ts_Failures ts; ts_Errors := ts_Errors ts;
     ts_Skipped := scanSkipped (ts_TestCases ts) (ts_Skipped ts) |}.

(** *** Process: the collector *)

(** The body of [for t := range chanEnd]. *)
Definition collect (tr : Tests) (t : TestSuite) : Tests :=
  let ko := if ts_Failures t >? 0
            then GoInt.add (tr_TotalKO tr) (ts_Failures t)
            else tr_TotalKO tr in
  let ok := if ts_Failures t >? 0
            then tr_TotalOK tr
            else GoInt.add (tr_TotalOK tr)
                   (GoInt.sub (GoInt.len (ts_TestCases t)) (ts_Failures t)) in
  let sk := if ts_Skipped t >? 0
            then GoInt.add (tr_TotalSkipped tr) (ts_Skipped t)
            else tr_TotalSkipped tr in
  {| tr_TestSuites := tr_TestSuites tr ++ [t];
     tr_TotalOK := ok; tr_TotalKO := ko; tr_TotalSkipped := sk;
     tr_Total := GoInt.add (GoInt.add ko ok) sk |}.

(** [tr := Tests{}] and [tss := []TestSuite{}]. *)
Definition noTests : Tests :=
  {| tr_TestSuites := []; tr_TotalOK := 0; tr_TotalKO := 0;
     tr_TotalSkipped := 0; tr_Total := 0 |}.

(** The aggregate once every suite sent on [chanEnd] has been collected;
    [done] lists them in the order of their arrival. *)
Definition collectAll (done : list TestSuite) : Tests :=
  fold_left collect done noTests.

(** One suite from its decoded form to the value sent on [chanEnd].  Each
    suite runs in a goroutine of its own: [st] is the world as that
    goroutine meets it. *)
Definition completeSuite (f : string) (ts : TestSuite) (st : St) : TestSuite :=
  fst (runTestSuite (prepareSuite f ts) st).

(** A run of [Process] over the files that were read and decoded (the
    others are dropped before they reach [chanToRun]), in the order in
    which their suites reach the collector. *)
Definition Process (files : list (string * TestSuite * St)) : Tests :=
  collectAll (map (fun '(f, ts, st) => completeSuite f ts st) files).

End Orchestrator.


(** ** The race of runTestStepExecutor

    The interleavings of the goroutine that calls [Run], the timer of
    [context.WithTimeout] and the caller blocked in [select], for one call
    of [runTestStepExecutor] whose executor returns [(run_result, run_err)]
    if it returns at all. *)
Module Race.
Section Race.

Variable R : Type.
Variable run_result : option R.
Variable run_err : error.
Variable timeout_err : string.

(** Where the goroutine is: inside [Run], blocked on [cherr <- err],
    blocked on [ch <- result], or finished. *)
Inductive goroutine : Type :=
| InRun
| SendErr
| SendResult
| Finished.

(** The caller: blocked in [select], or returned. *)
Inductive caller : Type :=
| InSelect
| Return (result : option R) (err : error).

Record config : Type := mkConfig {
  g : goroutine;
  c : caller;
  expired : bool
}.

Definition start : config :=
  {| g := InRun; c := InSelect; expired := false |}.

Inductive step : config -> config -> Prop :=
| run_returns cl ex :
    step (mkConfig InRun cl ex) (mkConfig SendErr cl ex)
| deadline gr cl :
    step (mkConfig gr cl false) (mkConfig gr cl true)
| recv_cherr ex :
    step (mkConfig SendErr InSelect ex)
         (mkConfig SendResult (Return None run_err) ex)
| recv_ch ex :
    step (mkConfig SendResult InSelect ex)
         (mkConfig Finished (Return run_result None) ex)
| recv_done gr :
    step (mkConfig gr InSelect true)
         (mkConfig gr (Return None (Some timeout_err)) true).

Inductive reachable : config -> Prop :=
| reach_start : reachable start
| reach_step k k' : reachable k -> step k k' -> reachable k'.

(** While the caller waits, the goroutine has not passed [cherr <- err];
    once the caller has returned, it returned a nil result, either with the
    error of [Run] (the goroutine is then blocked on [ch <- result]) or
    with the timeout error after the deadline. *)
Definition inv (k : config) : Prop :=
  match c k with
  | InSelect => g k = InRun \/ g k = SendErr
  | Return res e =>
      res = None
      /\ ((e = run_err /\ g k = SendResult)
          \/ (e = Some timeout_err /\ expired k = true))
  end.

End Race.
End Race.

(** ** executors/http: getRequest *)
Module Http.

(** A key or a value of the form, of type [interface{}]: a string, or a
    value of another dynamic type. *)
Inductive entry : Type :=
| EString (s : string)
| EOther.

(** The field [MultipartForm], of type [interface{}], as far as
    [getRequest] looks at it: the nil interface, a
    [map[interface{}]interface{}] (its entries in the order in which
    [range] visits them), or a value of another dynamic type. *)
Inductive value : Type :=
| VNil
| VMap (entries : list (entry * entry))
| VOther.

(** The fields of [Executor] that [getRequest] reads. *)
Record Executor : Type := mkExecutor {
  Method : string;
  URL : string;
  Path : string;
  Body : string;
  MultipartForm : value
}.

(** What [multipart.Writer] was asked to write: [CreateFormFile] followed
    by the copy of the file, or [WriteField]. *)
Inductive part : Type :=
| FormFile (fieldname filename content : string)
| FormField (fieldname value : string).

(** The buffer handed to [http.NewRequest]: the bytes of [e.Body] (or
    none), or the multipart message of the parts written before
    [writer.Close()]. *)
Inductive body : Type :=
| Buffer (bytes : string)
| Multipart (parts : list part).

Record Request : Type := mkRequest {
  r_Method : string;
  r_URL : string;
  r_Body : body;
  r_Header : gmap string string
}.

(** What the file system answers for a file name: [os.Stat] reports that
    the file does not exist; or it does not report that and [os.Open] or
    [io.Copy] fails; or the file is read. *)
Inductive FileAccess : Type :=
| NotExist
| OpenError (msg : string)
| Content (bytes : string).

Section GetRequest.

Variable file : string -> FileAccess.
(** [filepath.Base]. *)
Variable Base : string -> string.
(** The error of [http.NewRequest(method, path, body)], if any. *)
Variable newRequestError : string -> string -> error.
(** [writer.FormDataContentType()]. *)
Variable formDataContentType : string.

(** [value[1:]]. *)
Definition dropFirst (s : string) : string :=
  match s with
  | EmptyString => EmptyString
  | String _ rest => rest
  end.

(** [for keyf, valuef := range form { ... }]; [parts] is what the writer
    has been given so far.  (Writing to the [bytes.Buffer] does not
    fail.) *)
Fixpoint writeForm (form : list (entry * entry)) (parts : list part)
  : list part + string :=
  match form with
  | [] => inl parts
  | (keyf, valuef) :: rest =>
      match keyf with
      | EString key =>
          match valuef with
          | EString v =>
              if String.prefix "@" v
              then match file (dropFirst v) with
                   | NotExist => writeForm rest (parts ++ [FormField key v])
                   | OpenError msg => inr msg
                   | Content bytes =>
                       writeForm rest
                         (parts ++ [FormFile key (Base (dropFirst v)) bytes])
                   end
              else writeForm rest (parts ++ [FormField key v])
          | _ => inr "'multipart_form' should be a map with values as strings"
          end
      | _ => inr "'multipart_form' should be a map with keys as strings"
      end
  end.

Definition isNil (v : value) : bool :=
  match v with
  | VNil => true
  | _ => false
  end.

Definition getRequest (e : Executor) : Request + string :=
  let path := URL e ++ Path e in
  let method := if String.eqb (Method e) "" then "GET" else Method e in
  if negb (String.eqb (Body e) "") && negb (isNil (MultipartForm e))
  then inr "Cannot use both 'body' and 'multipart_form'"
  else
    let built : body * bool + string :=
      if negb (String.eqb (Body e) "") then inl (Buffer (Body e), false)
      else match MultipartForm e with
           | VNil => inl (Buffer "", false)
           | VMap form =>
               match writeForm form [] with
               | inl parts => inl (Multipart parts, true)
               | inr msg => inr msg
               end
           | _ => inr "'multipart_form' should be a map"
           end in
    match built with
    | inr msg => inr msg
    | inl (b, hasWriter) =>
        match newRequestError method path with
        | Some msg => inr msg
        | None =>
            inl {| r_Method := method; r_URL := path; r_Body := b;
                   r_Header :=
                     if hasWriter
                     then {[ "Content-Type" := formDataContentType ]}
                     else ∅ |}
        end
    end.

End GetRequest.
End Http.

(** ** Mock executors, for running the orchestrator on concrete suites *)
Module Mock.

(** A step with the reserved keys the mocks read: the executor [type],
    [retry], [delay], [timeout], and at most one assertion
    [result.statusCode ShouldEqual n]. *)
Record Step : Type := mkStep {
  s_type : string;
  s_retry : Z;
  s_delay : Z;
  s_timeout : Z;
  s_expect : option Z
}.

Definition Result : Type := gmap string Z.

(** The world of the mocks counts the calls of [Run]. *)
Definition World : Type := nat.

(** Returns [statusCode=code] and a nil error. *)
Definition status (code : Z) : @Executor Step Result World :=
  {| Run := fun _ _ w =>
       (Returned (Some {[ "result.statusCode" := code ]}) None, S w);
     GetDefaultAssertions := None |}.

(** Fails every call. *)
Definition refused : @Executor Step Result World :=
  {| Run := fun _ _ w => (Returned None (Some "connection refused"), S w);
     GetDefaultAssertions := None |}.

(** Never returns in time. *)
Definition stuck : @Executor Step Result World :=
  {| Run := fun _ _ w => (DeadlineFirst, S w);
     GetDefaultAssertions := None |}.

Definition wrapStep (x : @Executor Step Result World) (s : Step)
  : @resolved Step Result World :=
  Ok {| executor := x; retry := s_retry s; delay := s_delay s;
        timeout := s_timeout s |}.

(** The greatest [retry] the mock resolution accepts. *)
Definition maxRetry : Z := 100.

Definition getExecutorWrap (s : Step) : @resolved Step Result World :=
  if (s_retry s <? 0) || (maxRetry <? s_retry s)
  then Err "retry is out of range"
  else if String.eqb (s_type s) "ok200" then wrapStep (status 200) s
  else if String.eqb (s_type s) "notfound404" then wrapStep (status 404) s
  else if String.eqb (s_type s) "refused" then wrapStep refused s
  else if String.eqb (s_type s) "stuck" then wrapStep stuck s
  else Err ("type '" ++ s_type s ++ "' is not implemented").

Definition missingKey : Failure :=
  mkFailure "key result.statusCode does not exist in result".

Definition notEqual (n : Z) : Failure :=
  mkFailure ("expected result.statusCode to equal " ++ fmt_d n).

(** A check evaluator for the one assertion of the mock steps. *)
Definition applyChecks (result : @ExecutorResult Result) (s : Step)
  (defaults : option StepAssertions) : bool * list Failure * list Failure :=
  match s_expect s with
  | None => (true, [], [])
  | Some n =>
      match result with
      | None => (false, [missingKey], [])
      | Some m =>
          match m !! "result.statusCode" with
          | None => (false, [missingKey], [])
          | Some v => if v =? n then (true, [], []) else (false, [], [notEqual n])
          end
      end
  end.

Definition aliases : gmap string string := ∅.

Definition step (type : string) (retry : Z) (expect : option Z) : Step :=
  {| s_type := type; s_retry := retry; s_delay := 5; s_timeout := 1;
     s_expect := expect |}.

Definition case (name : string) (steps : list Step) (skipped : Z)
  : @TestCase Step :=
  {| tc_Name := name; tc_TestSteps := steps; tc_Skipped := skipped;
     tc_Failures := []; tc_Errors := [] |}.

Definition suite (name : string) (cases : list (@TestCase Step))
  : @TestSuite Step :=
  {| ts_Name := name; ts_Package := "suite.yml"; ts_TestCases := cases;
     ts_Total := 0; ts_Failures := 0; ts_Errors := 0; ts_Skipped := 0 |}.

Definition st0 : @St Step World := {| world := O; trace := [] |}.

(** The binding of a step that resolves; an empty one otherwise. *)
Definition binding (s : Step) : @executorWrap Step Result World :=
  match getExecutorWrap s with
  | Ok e => e
  | Err _ => {| executor := refused; retry := 0; delay := 0; timeout := 0 |}
  end.

Definition runTestStep := runTestStep (World:=World) applyChecks aliases.
Definition runTestCase := runTestCase (World:=World) getExecutorWrap applyChecks aliases.
Definition runTestSuite := runTestSuite (World:=World) getExecutorWrap applyChecks aliases.
Definition Process := Process (World:=World) getExecutorWrap applyChecks aliases.

End Mock.

(** * Properties *)

Local Open Scope list_scope.

(** ** Go int arithmetic *)
Module GoIntFacts.
Import GoInt.

Lemma wrap_id z : in_range z -> wrap z = z.
Proof.
  unfold in_range, min_int, max_int, wrap. intros H.
  rewrite Z.mod_small; lia.
Qed.

Lemma wrap_in_range z : in_range (wrap z).
Proof.
  unfold in_range, min_int, max_int, wrap.
  pose proof (Z.mod_pos_bound (z + 2 ^ 63) (2 ^ 64)). lia.
Qed.

Lemma wrap_add_l a b : wrap (wrap a + b) = wrap (a + b).
Proof.
  unfold wrap.
  replace ((a + 2 ^ 63) mod 2 ^ 64 - 2 ^ 63 + b + 2 ^ 63)
    with ((a + 2 ^ 63) mod 2 ^ 64 + b) by lia.
  rewrite Zplus_mod_idemp_l. do 2 f_equal. lia.
Qed.

Lemma wrap_add_r a b : wrap (a + wrap b) = wrap (a + b).
Proof. rewrite Z.add_comm, wrap_add_l. f_equal. lia. Qed.

Lemma wrap_wrap a : wrap (wrap a) = wrap a.
Proof. apply wrap_id, wrap_in_range. Qed.

Lemma add_comm a b : add a b = add b a.
Proof. unfold add. f_equal. lia. Qed.

Lemma add_sub_0 a n : add a (sub n 0) = add a n.
Proof. unfold add, sub. rewrite wrap_add_r. f_equal. lia. Qed.

Lemma incr_small z : min_int <= z < max_int -> incr z = z + 1.
Proof. intros H. apply wrap_id. unfold in_range. lia. Qed.

Lemma len_nonneg {A} (l : list A) : 0 <= len l.
Proof. unfold len. lia. Qed.

Lemma len_pos_iff {A} (l : list A) : (len l >? 0) = true <-> l <> [].
Proof.
  unfold len. rewrite Z.gtb_ltb, Z.ltb_lt.
  destruct l; simpl length; split; intros H; try congruence; lia.
Qed.

Lemma len_app {A} (l k : list A) : len (l ++ k) = len l + len k.
Proof. unfold len. rewrite length_app. lia. Qed.

End GoIntFacts.

(** ** Alias parsing *)

(** The second example of the specification goes through: an entry without
    a colon is skipped. *)
Example parseAliases_host :
  parseAliases ["HOST:example.com"; "bad-entry"]
  = {[ "HOST" := "example.com" ]}.
Proof. reflexivity. Qed.

(** C7: the alias ["URL:http://example.com:8080"] is split on every colon
    and the remainder is joined with the empty string, so the value bound
    to [URL] has lost its colons; the value rejoined with [":"] is not what
    the map holds. *)
Theorem parseAliases_drops_colons :
  parseAliases ["URL:http://example.com:8080"]
    = {[ "URL" := "http//example.com8080" ]}
  /\ parseAliases ["URL:http://example.com:8080"] !! "URL"
     <> Some "http://example.com:8080".
Proof. split; [reflexivity | vm_compute; discriminate]. Qed.

(** ** The race of runTestStepExecutor *)
Module RaceFacts.
Import Race.

Section RaceFacts.

Variable R : Type.
Variable run_result : option R.
Variable run_err : error.
Variable timeout_err : string.

Local Abbreviation step := (step R run_result run_err timeout_err).
Local Abbreviation reachable := (reachable R run_result run_err timeout_err).
Local Abbreviation inv := (inv R run_err timeout_err).

Lemma inv_start : inv (start R).
Proof. left. reflexivity. Qed.

Lemma inv_step k k' : inv k -> step k k' -> inv k'.
Proof.
  intros Hk Hs. destruct Hs; unfold inv in *; simpl in *.
  - destruct cl as [|res e]; [now right|].
    destruct Hk as [-> [[_ Hg]|He]]; [discriminate|]. split; [reflexivity|now right].
  - destruct cl as [|res e]; [exact Hk|].
    destruct Hk as [-> [Hl|[_ Hx]]]; [|discriminate]. split; [reflexivity|now left].
  - split; [reflexivity|]. left. now split.
  - destruct Hk as [Hg|Hg]; discriminate.
  - split; [reflexivity|]. right. now split.
Qed.

Lemma reachable_inv k : reachable k -> inv k.
Proof.
  induction 1 as [|k k' _ IH Hs]; [apply inv_start|].
  exact (inv_step k k' IH Hs).
Qed.

(** The branch [case result := <-ch] is never enabled. *)
Lemma recv_ch_dead k :
  reachable k -> c R k = InSelect R -> g R k <> SendResult.
Proof.
  intros Hr Hc Hg. apply reachable_inv in Hr. unfold inv in Hr.
  rewrite Hc, Hg in Hr. destruct Hr; discriminate.
Qed.

(** Both remaining branches can be taken. *)
Lemma cherr_reachable :
  reachable (mkConfig R SendResult (Return R None run_err) false).
Proof.
  eapply reach_step; [|apply recv_cherr].
  eapply reach_step; [|apply run_returns].
  apply reach_start.
Qed.

Lemma done_reachable :
  reachable (mkConfig R InRun (Return R None (Some timeout_err)) true).
Proof.
  eapply reach_step; [|apply recv_done].
  eapply reach_step; [|apply deadline].
  apply reach_start.
Qed.

End RaceFacts.

(** [selectReturn] is the race: what the caller can return, for an
    executor that returns [(result, err)] if it returns at all, is
    [selectReturn] of the call that returned in time or of the deadline
    taken first; and both can happen. *)
Lemma selectReturn_race {TestStep R World : Type}
  (e : @executorWrap TestStep R World) (result : option R) (err : error)
  (res : option R) (er : error) :
  (exists k,
     reachable R result err
       ("Timeout after " ++ fmt_d (timeout e) ++ " second(s)")%string k
     /\ c R k = Return R res er)
  <-> (res, er) = selectReturn e (Returned result err)
      \/ (res, er) = selectReturn e DeadlineFirst.
Proof.
  split.
  - intros (k & Hr & Hc). apply reachable_inv in Hr. unfold inv in Hr.
    rewrite Hc in Hr. destruct Hr as [-> [[-> _]|[-> _]]]; [now left|now right].
  - intros [H|H]; injection H as -> ->.
    + eexists. split; [apply cherr_reachable|reflexivity].
    + eexists. split; [apply done_reachable|reflexivity].
Qed.

(** C1: whatever result [Run] hands back, the caller of the [select] only
    ever returns a nil result; when it returns before the deadline has
    passed, the error it returns is the error of [Run].  An executor that
    returns [(result, nil)] in time thus makes [runTestStepExecutor] return
    [(nil, nil)]: the result never reaches the step runner. *)
Theorem select_returns_nil_result
  (R : Type) (run_result : option R) (run_err : error) (timeout_err : string)
  (k : config R) :
  reachable R run_result run_err timeout_err k ->
  forall res e, c R k = Return R res e ->
    res = None /\ (expired R k = false -> e = run_err).
Proof.
  intros Hr res e Hc. apply reachable_inv in Hr. unfold inv in Hr.
  rewrite Hc in Hr. destruct Hr as [-> [[-> _]|[_ Hx]]].
  - split; [reflexivity|]. intros _. reflexivity.
  - split; [reflexivity|]. intros Hf. rewrite Hf in Hx. discriminate.
Qed.

Lemma select_returns_nil_result_witness :
  let k := mkConfig Mock.Result SendResult (Return Mock.Result None None) false in
  reachable Mock.Result (Some {[ "result.statusCode" := 200 ]}) None
    "Timeout after 1 second(s)" k
  /\ (None : option Mock.Result) = None
  /\ (expired Mock.Result k = false -> (None : error) = None).
Proof.
  split; [apply cherr_reachable|].
  exact (select_returns_nil_result Mock.Result
           (Some {[ "result.statusCode" := 200 ]}) None
           "Timeout after 1 second(s)"
           (mkConfig Mock.Result SendResult (Return Mock.Result None None) false)
           (cherr_reachable _ _ _ _) None None eq_refl).
Defined.

End RaceFacts.

(** ** The collector *)
Module CollectorFacts.
Import GoInt GoIntFacts.

Section Collector.

Context {TestStep : Type}.
Implicit Types (tr : @Tests TestStep) (t : @TestSuite TestStep).

(** Equality of ints up to wrap-around. *)
Local Abbreviation eqm a b := (wrap a = wrap b).

Lemma eqm_wrap a : eqm (wrap a) a.
Proof. apply wrap_wrap. Qed.

Lemma eqm_add a a' b b' : eqm a a' -> eqm b b' -> eqm (a + b) (a' + b').
Proof.
  intros Ha Hb.
  rewrite <- (wrap_add_l a b), <- (wrap_add_r (wrap a) b), Ha, Hb.
  rewrite wrap_add_r, wrap_add_l. reflexivity.
Qed.

Lemma eqm3 a a' b b' c c' :
  eqm a a' -> eqm b b' -> eqm c c' -> eqm (a + b + c) (a' + b' + c').
Proof. intros Ha Hb Hc. apply eqm_add; [apply eqm_add|]; assumption. Qed.

(** What one collected suite adds to the three counters together. *)
Lemma collect_sum tr t :
  eqm (tr_TotalKO (collect tr t) + tr_TotalOK (collect tr t)
       + tr_TotalSkipped (collect tr t))
      (tr_TotalKO tr + tr_TotalOK tr + tr_TotalSkipped tr
       + ((if ts_Failures t >? 0 then ts_Failures t
           else len (ts_TestCases t) - ts_Failures t)
          + (if ts_Skipped t >? 0 then ts_Skipped t else 0))).
Proof.
  unfold collect; simpl. unfold add, sub.
  set (ko := tr_TotalKO tr). set (ok := tr_TotalOK tr).
  set (sk := tr_TotalSkipped tr). set (f := ts_Failures t).
  set (n := len (ts_TestCases t)). set (s := ts_Skipped t).
  assert (Hok : eqm (wrap (ok + wrap (n - f))) (ok + (n - f)))
    by (rewrite wrap_wrap, wrap_add_r; reflexivity).
  destruct (f >? 0), (s >? 0);
    (etransitivity;
     [apply eqm3; first [exact Hok | apply eqm_wrap | reflexivity]
     | f_equal; lia]).
Qed.

Lemma collect_Total tr t :
  tr_Total (collect tr t)
  = add (add (tr_TotalKO (collect tr t)) (tr_TotalOK (collect tr t)))
        (tr_TotalSkipped (collect tr t)).
Proof. reflexivity. Qed.

Lemma fold_collect_Total done tr :
  tr_Total tr = add (add (tr_TotalKO tr) (tr_TotalOK tr)) (tr_TotalSkipped tr) ->
  let tr' := fold_left collect done tr in
  tr_Total tr' = add (add (tr_TotalKO tr') (tr_TotalOK tr')) (tr_TotalSkipped tr').
Proof.
  revert tr. induction done as [|t done IH]; intros tr H; simpl; [exact H|].
  apply IH, collect_Total.
Qed.

Lemma fold_collect_sum done tr :
  let tr' := fold_left collect done tr in
  eqm (tr_TotalKO tr' + tr_TotalOK tr' + tr_TotalSkipped tr')
      (tr_TotalKO tr + tr_TotalOK tr + tr_TotalSkipped tr
       + fold_right Z.add 0
           (map (fun t =>
                   (if ts_Failures t >? 0 then ts_Failures t
                    else len (ts_TestCases t) - ts_Failures t)
                   + (if ts_Skipped t >? 0 then ts_Skipped t else 0)) done)).
Proof.
  revert tr. induction done as [|t done IH]; intros tr; simpl.
  - f_equal. lia.
  - rewrite IH. rewrite <- wrap_add_l, collect_sum, wrap_add_l.
    f_equal. lia.
Qed.

(** C10: a collected suite with [Failures == 0] adds its case count to
    [TotalOK] and leaves [TotalKO] as it was; and whatever its [Errors]
    counter holds, the four totals come out the same. *)
Theorem collect_ignores_Errors tr t :
  ts_Failures t = 0 ->
  tr_TotalOK (collect tr t) = add (tr_TotalOK tr) (len (ts_TestCases t))
  /\ tr_TotalKO (collect tr t) = tr_TotalKO tr
  /\ forall errors,
       let t' := setCounters t (ts_Failures t) errors (ts_Skipped t) in
       tr_TotalOK (collect tr t') = tr_TotalOK (collect tr t)
       /\ tr_TotalKO (collect tr t') = tr_TotalKO (collect tr t)
       /\ tr_TotalSkipped (collect tr t') = tr_TotalSkipped (collect tr t)
       /\ tr_Total (collect tr t') = tr_Total (collect tr t).
Proof.
  intros Hf. unfold collect; simpl. rewrite Hf. simpl.
  split; [apply add_sub_0|]. split; [reflexivity|].
  intros errors. repeat split.
Qed.

(** C6, as the code has it: after every collected suite [Total] is the
    sum, in int arithmetic, of the three other totals; and it is the sum
    over the collected suites of [Failures] (when positive, otherwise of
    [len(TestCases) - Failures]) plus [Skipped] (when positive). *)
Theorem collectAll_Total (done : list (@TestSuite TestStep)) :
  let tr := collectAll done in
  tr_Total tr = add (add (tr_TotalOK tr) (tr_TotalKO tr)) (tr_TotalSkipped tr)
  /\ tr_Total tr
     = wrap (fold_right Z.add 0
               (map (fun t =>
                       (if ts_Failures t >? 0 then ts_Failures t
                        else len (ts_TestCases t) - ts_Failures t)
                       + (if ts_Skipped t >? 0 then ts_Skipped t else 0))
                    done)).
Proof.
  unfold collectAll.
  pose proof (fold_collect_Total done noTests eq_refl) as HT.
  pose proof (fold_collect_sum done noTests) as HS.
  simpl in HT, HS. split.
  - rewrite HT. rewrite (add_comm (tr_TotalOK _) (tr_TotalKO _)). reflexivity.
  - rewrite HT. unfold add. rewrite wrap_add_l. exact HS.
Qed.

End Collector.

Lemma collect_ignores_Errors_witness :
  let t := setCounters (Mock.suite "s" [Mock.case "c" [] 0]) 0 3 0 in
  ts_Failures t = 0
  /\ tr_TotalOK (collect noTests t) = add 0 1
  /\ tr_TotalKO (collect noTests t) = 0.
Proof.
  split; [reflexivity|].
  pose proof (collect_ignores_Errors noTests
    (setCounters (Mock.suite "s" [Mock.case "c" [] 0]) 0 3 0) eq_refl) as [H1 [H2 _]].
  split; [exact H1 | exact H2].
Defined.

End CollectorFacts.

(** ** The step runner *)
Module StepFacts.
Import GoInt GoIntFacts.

Section StepRunner.

Context {TestStep ResultMap World : Type}.
Variable applyChecks :
  @ExecutorResult ResultMap -> TestStep -> option StepAssertions ->
  bool * list Failure * list Failure.
Variable aliases : gmap string string.

Implicit Types (e : @executorWrap TestStep ResultMap World)
  (l : @Loop TestStep World) (tc : @TestCase TestStep)
  (st : @St TestStep World) (step : TestStep).

Local Abbreviation attempt' := (attempt applyChecks aliases).
Local Abbreviation retryLoop' := (retryLoop applyChecks aliases).
Local Abbreviation runTestStep' := (runTestStep applyChecks aliases).

(** The events of the attempts numbered [from], ..., [from + m - 1]. *)
Local Abbreviation attemptEvents e step from m :=
  (flat_map (fun i : nat =>
               if (2 <=? i)%nat then [EvSleep (delay e); EvRun step]
               else [EvRun step])
            (seq from m)).

(** The body of the loop, by the outcome of the call and of the checks.
    The result handed to the evaluator is nil in every case. *)
Lemma attempt_eq e step l a w :
  Run (executor e) aliases step (world (l_st l)) = (a, w) ->
  l_isOK l = false ->
  attempt' e step l =
    let st2 :=
      {| world := w;
         trace := trace (l_st l)
                  ++ (if l_retry l >? 1 then [EvSleep (delay e)] else [])
                  ++ [EvRun step] |} in
    match snd (selectReturn e a) with
    | Some msg =>
        (mkLoop (incr (l_retry l)) false (l_errors l) (l_failures l)
           (appendFailures (l_tc l) [mkFailure msg]) st2, false)
    | None =>
        let '(ok, es, fs) :=
          applyChecks None step (GetDefaultAssertions (executor e)) in
        if ok then (mkLoop (l_retry l) true es fs (l_tc l) st2, true)
        else (mkLoop (incr (l_retry l)) false es fs (l_tc l) st2, false)
    end.
Proof.
  intros Hrun Hok. unfold attempt, runTestStepExecutor.
  rewrite Hok. simpl negb. rewrite andb_true_r.
  destruct (l_retry l >? 1); simpl; rewrite Hrun;
    destruct a as [result [msg|]|]; simpl; rewrite <- ?app_assoc;
    try reflexivity;
    destruct (applyChecks None step (GetDefaultAssertions (executor e)))
      as [[[|] es] fs]; reflexivity.
Qed.


(** The loop from a state in which [isOK] is still false, with [n] the
    number of passes that the condition [retry <= e.retry] leaves.  [m]
    passes are made; [msgs] are the errors of the calls that failed. *)
Lemma retryLoop_spec e step (n : nat) l :
  retry e < max_int ->
  l_isOK l = false -> 0 <= l_retry l ->
  Z.of_nat n = Z.max 0 (retry e + 1 - l_retry l) ->
  let l' := retryLoop' n e step l in
  let '(ok0, es0, fs0) :=
    applyChecks None step (GetDefaultAssertions (executor e)) in
  exists (m : nat) (msgs : list string),
    (m <= n)%nat /\ ((0 < n)%nat -> (0 < m)%nat)
    /\ trace (l_st l')
       = trace (l_st l) ++ attemptEvents e step (Z.to_nat (l_retry l)) m
    /\ tc_Failures (l_tc l') = tc_Failures (l_tc l) ++ map mkFailure msgs
    /\ tc_Errors (l_tc l') = tc_Errors (l_tc l)
    /\ tc_Skipped (l_tc l') = tc_Skipped (l_tc l)
    /\ ((l_isOK l' = true /\ ok0 = true
         /\ l_errors l' = es0 /\ l_failures l' = fs0
         /\ l_retry l' = l_retry l + Z.of_nat m - 1
         /\ S (length msgs) = m)
        \/ (l_isOK l' = false /\ m = n
            /\ l_retry l' = l_retry l + Z.of_nat m
            /\ ((l_errors l' = l_errors l /\ l_failures l' = l_failures l
                 /\ length msgs = m)
                \/ (ok0 = false /\ l_errors l' = es0 /\ l_failures l' = fs0
                    /\ (length msgs < m)%nat)))).
Proof.
  intros Hmax. revert l.
  destruct (applyChecks None step (GetDefaultAssertions (executor e)))
    as [[ok0 es0] fs0] eqn:Hchk.
  induction n as [|n IH]; intros l Hok Hr Hn; cbv zeta; cbn [retryLoop].
  - exists O, []. simpl. rewrite !app_nil_r.
    repeat (split; [auto; lia|]). right. repeat split; auto; lia.
  - assert (Hle : l_retry l <= retry e) by lia.
    apply Z.leb_le in Hle. rewrite Hle, Hok. simpl andb.
    destruct (Run (executor e) aliases step (world (l_st l))) as [a w] eqn:Hrun.
    rewrite (attempt_eq e step l a w Hrun Hok). cbv zeta.
    assert (Hincr : incr (l_retry l) = l_retry l + 1)
      by (apply incr_small; unfold min_int; apply Z.leb_le in Hle; lia).
    assert (Hnat : Z.to_nat (l_retry l + 1) = S (Z.to_nat (l_retry l)))
      by (rewrite Z2Nat.inj_add by lia; simpl; lia).
    assert (Hsleep : (l_retry l >? 1) = (2 <=? Z.to_nat (l_retry l))%nat).
    { destruct (Z.gtb_spec (l_retry l) 1) as [H|H];
        symmetry; [apply Nat.leb_le | apply Nat.leb_gt]; lia. }
    assert (Hev : forall m,
      ((if l_retry l >? 1 then [EvSleep (delay e)] else []) ++ [EvRun step])
      ++ attemptEvents e step (S (Z.to_nat (l_retry l))) m
      = attemptEvents e step (Z.to_nat (l_retry l)) (S m)).
    { intros m. cbn [seq flat_map]. rewrite Hsleep.
      destruct (2 <=? Z.to_nat (l_retry l))%nat; reflexivity. }
    apply Z.leb_le in Hle.
    destruct (snd (selectReturn e a)) as [msg|] eqn:Hsel.
    + (* the call failed or ran out of time: continue *)
      rewrite Hincr.
      set (l1 := mkLoop _ _ _ _ _ _).
      destruct (IH l1) as (m & msgs & Hm & Hpos & Htr & Hfs & Hes & Hsk & Hend);
        [reflexivity | simpl; lia | simpl; lia |].
      exists (S m), (msg :: msgs). simpl l_retry in *. simpl l_st in *.
      simpl l_tc in *. simpl l_errors in *. simpl l_failures in *.
      rewrite Hnat in Htr.
      split; [lia|]. split; [lia|].
      split; [rewrite Htr; simpl trace; rewrite <- Hev, !app_assoc; reflexivity|].
      split; [rewrite Hfs; simpl; rewrite <- app_assoc; reflexivity|].
      split; [rewrite Hes; reflexivity|]. split; [rewrite Hsk; reflexivity|].
      destruct Hend as [(H1 & H2 & H3 & H4 & H5 & H6)
                       |(H1 & H2 & H3 & [(H4 & H5 & H6)|(H4 & H5 & H6 & H7)])].
      * left. repeat split; auto; simpl; lia.
      * right. repeat split; auto; try lia. left. repeat split; auto; simpl; lia.
      * right. repeat split; auto; try lia. right. repeat split; auto; simpl; lia.
    + (* the call returned: the checks decide *)
      rewrite Hchk. destruct ok0.
      * exists 1%nat, [].
        split; [lia|]. split; [lia|].
        split; [rewrite <- (Hev O); cbn [l_st trace seq flat_map];
                rewrite app_nil_r, app_assoc; reflexivity|].
        split; [simpl; rewrite app_nil_r; reflexivity|].
        split; [reflexivity|]. split; [reflexivity|].
        left. repeat split; simpl; lia.
      * rewrite Hincr.
        set (l1 := mkLoop _ _ _ _ _ _).
        destruct (IH l1) as (m & msgs & Hm & Hpos & Htr & Hfs & Hes & Hsk & Hend);
          [reflexivity | simpl; lia | simpl; lia |].
        exists (S m), msgs. simpl l_retry in *. simpl l_st in *.
        simpl l_tc in *. simpl l_errors in *. simpl l_failures in *.
        rewrite Hnat in Htr.
        split; [lia|]. split; [lia|].
        split; [rewrite Htr; simpl trace; rewrite <- Hev, !app_assoc; reflexivity|].
        split; [exact Hfs|]. split; [exact Hes|]. split; [exact Hsk|].
        destruct Hend as [(H1 & H2 & H3 & H4 & H5 & H6)
                         |(H1 & H2 & H3 & [(H4 & H5 & H6)|(H4 & H5 & H6 & H7)])].
        -- discriminate.
        -- right. repeat split; auto; try lia. right. repeat split; auto; lia.
        -- right. repeat split; auto; try lia. right. repeat split; auto; lia.
Qed.


(** The bound on the passes is never what ends the loop: when the
    recursion stops, the condition of the [for] is false (or the body left
    through [break], with [isOK] true). *)
Lemma retryLoop_exits e step l :
  retry e < max_int -> l_isOK l = false -> 0 <= l_retry l ->
  let l' := retryLoop' (Z.to_nat (retry e + 1 - l_retry l)) e step l in
  (l_retry l' <=? retry e) && negb (l_isOK l') = false.
Proof.
  intros Hmax Hok H0.
  pose proof (retryLoop_spec e step (Z.to_nat (retry e + 1 - l_retry l)) l
                Hmax Hok H0 ltac:(lia)) as H.
  destruct (applyChecks None step (GetDefaultAssertions (executor e)))
    as [[ok0 es0] fs0].
  cbv zeta in H |- *. destruct H as (m & msgs & _ & _ & _ & _ & _ & _ & Hend).
  destruct Hend as [(-> & _)|(-> & -> & -> & _)].
  - apply andb_false_r.
  - rewrite andb_true_r. apply Z.leb_gt. lia.
Qed.

(** The synthetic Failure, when the guard after the loop lets it in. *)
Local Abbreviation synthetic after es fs :=
  (if (after >? 0) && ((len fs >? 0) || (len es >? 0))
   then [syntheticFailure after] else []).

(** [runTestStep] as a whole: [m] attempts are made, [msgs] are the errors
    of the calls that failed.  Either an attempt passed its checks (the
    last one), or no attempt was ever checked, or the checks fail. *)
Lemma runTestStep_spec e tc step st :
  retry e < max_int ->
  let '(ok0, es0, fs0) :=
    applyChecks None step (GetDefaultAssertions (executor e)) in
  let tc' := fst (runTestStep' e tc step st) in
  let st' := snd (runTestStep' e tc step st) in
  exists (m : nat) (msgs : list string),
    Z.of_nat m <= Z.max 0 (retry e + 1)
    /\ (0 <= retry e -> (0 < m)%nat)
    /\ trace st' = trace st ++ attemptEvents e step O m
    /\ tc_Skipped tc' = tc_Skipped tc
    /\ ((ok0 = true /\ S (length msgs) = m
         /\ tc_Errors tc' = tc_Errors tc ++ es0
         /\ tc_Failures tc'
            = tc_Failures tc ++ map mkFailure msgs ++ fs0
              ++ synthetic (Z.of_nat m - 1) es0 fs0)
        \/ (Z.of_nat m = Z.max 0 (retry e + 1) /\ length msgs = m
            /\ tc_Errors tc' = tc_Errors tc
            /\ tc_Failures tc' = tc_Failures tc ++ map mkFailure msgs)
        \/ (ok0 = false /\ Z.of_nat m = Z.max 0 (retry e + 1)
            /\ (length msgs < m)%nat
            /\ tc_Errors tc' = tc_Errors tc ++ es0
            /\ tc_Failures tc'
               = tc_Failures tc ++ map mkFailure msgs ++ fs0
                 ++ synthetic (Z.of_nat m) es0 fs0)).
Proof.
  intros Hmax.
  pose proof (retryLoop_spec e step (passes e)
                (mkLoop 0 false [] [] tc st) Hmax eq_refl) as H.
  cbv zeta in H. cbn [l_retry l_st l_tc l_errors l_failures] in H.
  destruct (applyChecks None step (GetDefaultAssertions (executor e)))
    as [[ok0 es0] fs0].
  destruct H as (m & msgs & Hm & Hpos & Htr & Hfs & Hes & Hsk & Hend);
    [lia | unfold passes; lia |].
  unfold runTestStep. cbv zeta.
  set (l' := retryLoop applyChecks aliases (passes e) e step _) in *.
  cbn [fst snd]. exists m, msgs.
  split; [unfold passes in Hm; lia|].
  split; [unfold passes in Hpos; lia|].
  split; [exact Htr|].
  split; [destruct (_ && _); simpl; exact Hsk|].
  destruct Hend as [(H1 & H2 & H3 & H4 & H5 & H6)
                   |(H1 & H2 & H3 & [(H4 & H5 & H6)|(H4 & H5 & H6 & H7)])].
  - left. split; [exact H2|]. split; [exact H6|].
    rewrite H3, H4, H5. replace (0 + Z.of_nat m - 1) with (Z.of_nat m - 1) by lia.
    split; [destruct (_ && _); simpl; rewrite Hes; reflexivity|].
    destruct (_ && _); simpl; rewrite Hfs, <- ?app_assoc; rewrite ?app_nil_r;
      reflexivity.
  - right; left. rewrite H4, H5. simpl. rewrite andb_false_r. simpl.
    rewrite !app_nil_r.
    split; [unfold passes in H2; lia|]. split; [exact H6|].
    split; [exact Hes | exact Hfs].
  - right; right. split; [exact H4|].
    split; [unfold passes in H2; lia|]. split; [exact H7|].
    rewrite H3, H5, H6. replace (0 + Z.of_nat m) with (Z.of_nat m) by lia.
    split; [destruct (_ && _); simpl; rewrite Hes; reflexivity|].
    destruct (_ && _); simpl; rewrite Hfs, <- ?app_assoc; rewrite ?app_nil_r;
      reflexivity.
Qed.


(** [tc.Skipped] is not touched by the step runner. *)
Lemma attempt_Skipped e step l :
  tc_Skipped (l_tc (fst (attempt' e step l))) = tc_Skipped (l_tc l).
Proof.
  unfold attempt.
  destruct (runTestStepExecutor aliases e step _) as [[result [msg|]] st2];
    [reflexivity|].
  destruct (applyChecks result step _) as [[[|] es] fs]; reflexivity.
Qed.

Lemma retryLoop_Skipped e step n l :
  tc_Skipped (l_tc (retryLoop' n e step l)) = tc_Skipped (l_tc l).
Proof.
  revert l. induction n as [|n IH]; intros l; cbn [retryLoop]; [reflexivity|].
  destruct (_ && _); [|reflexivity].
  pose proof (attempt_Skipped e step l) as H.
  destruct (attempt' e step l) as [l1 [|]]; cbn [fst] in H; [exact H|].
  rewrite IH. exact H.
Qed.

Lemma runTestStep_Skipped e tc step st :
  tc_Skipped (fst (runTestStep' e tc step st)) = tc_Skipped tc.
Proof.
  unfold runTestStep. cbv zeta. cbn [fst].
  destruct (_ && _); simpl; apply retryLoop_Skipped.
Qed.

(** C3, as the code has it: an attempt whose executor call returns an
    error, and an attempt whose deadline is taken first, each append one
    record to the Failures of the enclosing case (for the deadline, the
    message names the configured timeout) and none to its Errors; the
    checks are not run and the loop goes on to the next attempt. *)
Theorem attempt_error_is_Failure e step l a w :
  Run (executor e) aliases step (world (l_st l)) = (a, w) ->
  let l' := fst (attempt' e step l) in
  let recorded msg :=
    tc_Failures (l_tc l') = tc_Failures (l_tc l) ++ [mkFailure msg]
    /\ tc_Errors (l_tc l') = tc_Errors (l_tc l)
    /\ l_errors l' = l_errors l /\ l_failures l' = l_failures l
    /\ snd (attempt' e step l) = false in
  (forall result msg, a = Returned result (Some msg) -> recorded msg)
  /\ (a = DeadlineFirst ->
      recorded ("Timeout after " ++ fmt_d (timeout e) ++ " second(s)")%string).
Proof.
  intros Hrun. unfold attempt, runTestStepExecutor.
  assert (Hw : forall ev, world (emit ev (l_st l)) = world (l_st l))
    by reflexivity.
  destruct (_ && _); rewrite ?Hw, Hrun; cbv zeta;
    (split; [intros result msg ->|intros ->]); simpl; repeat split.
Qed.


(** The calls that failed, as the Failure records they leave. *)
Local Abbreviation callFailures outs :=
  (flat_map (fun o : error =>
               match o with Some msg => [mkFailure msg] | None => [] end)
            outs).

(** Whether some call returned without error, so that the checks ran. *)
Local Abbreviation checked outs :=
  (existsb (fun o : error => match o with None => true | Some _ => false end)
           outs).

(** The loop against the errors of its calls. *)
Lemma retryLoop_records e step (n : nat) : forall l,
  retry e < max_int ->
  l_isOK l = false -> 0 <= l_retry l ->
  Z.of_nat n = Z.max 0 (retry e + 1 - l_retry l) ->
  let ok0 := fst (fst (applyChecks None step
                         (GetDefaultAssertions (executor e)))) in
  let es0 := snd (fst (applyChecks None step
                         (GetDefaultAssertions (executor e)))) in
  let fs0 := snd (applyChecks None step (GetDefaultAssertions (executor e))) in
  let outs := attemptErrors aliases e step ok0 n (world (l_st l)) in
  let l' := retryLoop' n e step l in
  trace (l_st l')
  = trace (l_st l)
    ++ attemptEvents e step (Z.to_nat (l_retry l)) (length outs)
  /\ tc_Failures (l_tc l') = tc_Failures (l_tc l) ++ callFailures outs
  /\ tc_Errors (l_tc l') = tc_Errors (l_tc l)
  /\ l_errors l' = (if checked outs then es0 else l_errors l)
  /\ l_failures l' = (if checked outs then fs0 else l_failures l)
  /\ l_retry l'
     = l_retry l + Z.of_nat (length outs)
       - (if ok0 && checked outs then 1 else 0).
Proof.
  intros l Hmax. revert l.
  destruct (applyChecks None step (GetDefaultAssertions (executor e)))
    as [[ok0 es0] fs0] eqn:Hchk. cbn [fst snd].
  induction n as [|n IH]; intros l Hok Hr Hn; cbv zeta;
    cbn [retryLoop attemptErrors].
  - cbn. rewrite !app_nil_r, andb_false_r. repeat split. lia.
  - assert (Hle : l_retry l <= retry e) by lia.
    apply Z.leb_le in Hle. rewrite Hle, Hok. simpl andb.
    destruct (Run (executor e) aliases step (world (l_st l))) as [a w] eqn:Hrun.
    rewrite (attempt_eq e step l a w Hrun Hok). cbv zeta.
    assert (Hincr : incr (l_retry l) = l_retry l + 1)
      by (apply incr_small; unfold min_int; apply Z.leb_le in Hle; lia).
    assert (Hnat : Z.to_nat (l_retry l + 1) = S (Z.to_nat (l_retry l)))
      by (rewrite Z2Nat.inj_add by lia; simpl; lia).
    assert (Hsleep : (l_retry l >? 1) = (2 <=? Z.to_nat (l_retry l))%nat).
    { destruct (Z.gtb_spec (l_retry l) 1) as [H|H];
        symmetry; [apply Nat.leb_le | apply Nat.leb_gt]; lia. }
    assert (Hev : forall m,
      ((if l_retry l >? 1 then [EvSleep (delay e)] else []) ++ [EvRun step])
      ++ attemptEvents e step (S (Z.to_nat (l_retry l))) m
      = attemptEvents e step (Z.to_nat (l_retry l)) (S m)).
    { intros m. cbn [seq flat_map]. rewrite Hsleep.
      destruct (2 <=? Z.to_nat (l_retry l))%nat; reflexivity. }
    apply Z.leb_le in Hle.
    destruct (snd (selectReturn e a)) as [msg|] eqn:Hsel.
    + rewrite Hincr. set (l1 := mkLoop _ _ _ _ _ _).
      destruct (IH l1) as (Htr & Hfs & Hes & He & Hf & Hre);
        [reflexivity | simpl; lia | simpl; lia |].
      cbn [l_retry l_st l_tc l_errors l_failures l1 world trace
           appendFailures tc_Failures tc_Errors] in Htr, Hfs, Hes, He, Hf, Hre.
      rewrite Hnat in Htr.
      cbn [length flat_map existsb orb].
      split; [rewrite Htr, <- Hev, !app_assoc; reflexivity|].
      split; [rewrite Hfs, <- app_assoc; reflexivity|].
      split; [exact Hes|]. split; [exact He|]. split; [exact Hf|].
      rewrite Hre. lia.
    + rewrite Hchk. destruct ok0.
      * cbn [length flat_map existsb orb andb l_st l_tc l_errors l_failures
             l_retry trace].
        split; [rewrite <- (Hev O); cbn [seq flat_map];
                rewrite app_nil_r, app_assoc; reflexivity|].
        split; [rewrite app_nil_r; reflexivity|].
        repeat split. lia.
      * rewrite Hincr. set (l1 := mkLoop _ _ _ _ _ _).
        destruct (IH l1) as (Htr & Hfs & Hes & He & Hf & Hre);
          [reflexivity | simpl; lia | simpl; lia |].
        cbn [l_retry l_st l_tc l_errors l_failures l1 world trace] in
          Htr, Hfs, Hes, He, Hf, Hre.
        rewrite Hnat in Htr.
        cbn [length flat_map existsb orb andb app].
        split; [rewrite Htr, <- Hev, !app_assoc; reflexivity|].
        split; [exact Hfs|]. split; [exact Hes|].
        split; [rewrite He; destruct (existsb _ _); reflexivity|].
        split; [rewrite Hf; destruct (existsb _ _); reflexivity|].
        rewrite Hre. cbn [andb]. lia.
Qed.

(** C5, as the code has it.  Let [outs] be the errors that the calls of
    the attempts return, in order.  The step makes exactly these attempts;
    every call that failed leaves its own Failure record, in the order of
    the attempts; and the records of the check evaluator enter the case
    once, after the loop, if some attempt was checked and however many
    were (the evaluator is given the nil result each time, so its answer
    is the same on every attempt): its Errors to the Errors of the case,
    its Failures to the Failures of the case, followed by the Failure that
    notes the attempts when the guard lets it in. *)
Theorem runTestStep_check_records_once e tc step st :
  retry e < max_int ->
  let '(ok0, es0, fs0) :=
    applyChecks None step (GetDefaultAssertions (executor e)) in
  let outs := attemptErrors aliases e step ok0 (passes e) (world st) in
  let after := Z.of_nat (length outs) - (if ok0 then 1 else 0) in
  let tc' := fst (runTestStep' e tc step st) in
  trace (snd (runTestStep' e tc step st))
  = trace st
    ++ flat_map (fun i : nat =>
                   if (2 <=? i)%nat then [EvSleep (delay e); EvRun step]
                   else [EvRun step])
                (seq 0 (length outs))
  /\ tc_Errors tc'
     = tc_Errors tc
       ++ (if existsb (fun o : error =>
                         match o with None => true | Some _ => false end) outs
           then es0 else [])
  /\ tc_Failures tc'
     = tc_Failures tc
       ++ flat_map (fun o : error =>
                      match o with Some msg => [mkFailure msg] | None => [] end)
                   outs
       ++ (if existsb (fun o : error =>
                         match o with None => true | Some _ => false end) outs
           then fs0
                ++ (if (after >? 0) && ((len fs0 >? 0) || (len es0 >? 0))
                    then [syntheticFailure after] else [])
           else []).
Proof.
  intros Hmax.
  pose proof (retryLoop_records e step (passes e)
                (mkLoop 0 false [] [] tc st) Hmax eq_refl) as H.
  cbv zeta in H. cbn [l_retry l_st l_tc l_errors l_failures] in H.
  destruct (applyChecks None step (GetDefaultAssertions (executor e)))
    as [[ok0 es0] fs0]. cbn [fst snd] in H. cbv zeta.
  destruct H as (Htr & Hfs & Hes & He & Hf & Hre); [lia | unfold passes; lia |].
  unfold runTestStep. cbv zeta.
  set (l' := retryLoop applyChecks aliases (passes e) e step _) in *.
  set (outs := attemptErrors aliases e step ok0 (passes e) (world st)) in *.
  cbn [fst snd]. split; [exact Htr|].
  rewrite He, Hf, Hre.
  destruct (checked outs) eqn:Hc.
  - rewrite andb_true_r.
    replace (0 + Z.of_nat (length outs) - (if ok0 then 1 else 0))
      with (Z.of_nat (length outs) - (if ok0 then 1 else 0)) by lia.
    clear Hre. split.
    + destruct ((_ >? 0) && _);
        cbn [tc_Errors tc_Failures appendFailures appendErrors];
        rewrite Hes; reflexivity.
    + destruct ((_ >? 0) && _);
        cbn [tc_Errors tc_Failures appendFailures appendErrors];
        rewrite Hfs, <- ?app_assoc; rewrite ?app_nil_r; reflexivity.
  - cbn [len length]. change (Z.of_nat 0 >? 0) with false.
    rewrite andb_false_r.
    cbn [tc_Errors tc_Failures appendFailures appendErrors orb].
    rewrite !app_nil_r. split; [exact Hes | exact Hfs].
Qed.

End StepRunner.
End StepFacts.

(** ** The case runner and the suite runner *)
Module CaseFacts.
Import GoInt GoIntFacts StepFacts.

Section CaseRunner.

Context {TestStep ResultMap World : Type}.
Variable getExecutorWrap : TestStep -> @resolved TestStep ResultMap World.
Variable applyChecks :
  @ExecutorResult ResultMap -> TestStep -> option StepAssertions ->
  bool * list Failure * list Failure.
Variable aliases : gmap string string.

Implicit Types (e : @executorWrap TestStep ResultMap World)
  (tc : @TestCase TestStep) (ts : @TestSuite TestStep)
  (st : @St TestStep World) (step : TestStep).

Local Abbreviation runTestStep' := (runTestStep applyChecks aliases).
Local Abbreviation caseLoop' := (caseLoop getExecutorWrap applyChecks aliases).
Local Abbreviation runTestCase' :=
  (runTestCase getExecutorWrap applyChecks aliases).
Local Abbreviation suiteLoop' :=
  (suiteLoop getExecutorWrap applyChecks aliases).
Local Abbreviation runTestSuite' :=
  (runTestSuite getExecutorWrap applyChecks aliases).

(** The number of records a case holds. *)
Local Abbreviation records tc :=
  (length (tc_Errors tc) + length (tc_Failures tc))%nat.

Lemma caseLoop_Skipped steps tc st :
  tc_Skipped (fst (caseLoop' steps tc st)) = tc_Skipped tc.
Proof.
  revert tc st. induction steps as [|step rest IH]; intros tc st;
    cbn [caseLoop]; [reflexivity|].
  destruct (getExecutorWrap step) as [e|msg]; [|reflexivity].
  pose proof (runTestStep_Skipped applyChecks aliases e tc step st) as H.
  destruct (runTestStep' e tc step st) as [tc1 st1]. cbn [fst] in H.
  destruct (_ >? 0); [exact H|]. rewrite IH. exact H.
Qed.

Lemma runTestCase_Skipped tc st :
  tc_Skipped (fst (runTestCase' tc st)) = tc_Skipped tc.
Proof. apply caseLoop_Skipped. Qed.

(** The suite keeps one entry per case: the entries before the index [i]
    are left alone, and every case still to visit whose [Skipped] is 0 is
    replaced by what the case runner makes of it. *)
Lemma suiteLoop_cases cases : forall (i : nat) ts st,
  (forall (j : nat) tc,
     cases !! j = Some tc -> ts_TestCases ts !! (i + j)%nat = Some tc) ->
  let ts' := fst (suiteLoop' i cases ts st) in
  (forall j : nat, (j < i)%nat -> ts_TestCases ts' !! j = ts_TestCases ts !! j)
  /\ (forall (j : nat) tc,
        cases !! j = Some tc -> tc_Skipped tc = 0 ->
        exists st_j,
          ts_TestCases ts' !! (i + j)%nat = Some (fst (runTestCase' tc st_j))).
Proof.
  induction cases as [|tc rest IH]; intros i ts st Hat; cbv zeta.
  - split; [reflexivity|]. intros j x Hx. discriminate.
  - cbn [suiteLoop].
    assert (Hi : (i < length (ts_TestCases ts))%nat).
    { apply (lookup_lt_Some _ _ tc). rewrite <- (Hat O tc eq_refl).
      f_equal. lia. }
    destruct (tc_Skipped tc =? 0) eqn:Hsk.
    + destruct (runTestCase' tc st) as [tc1 st1] eqn:Hrun.
      set (ts1 := countCase tc1 _).
      assert (Hts1 : ts_TestCases ts1 = <[ i := tc1 ]> (ts_TestCases ts))
        by reflexivity.
      destruct (IH (S i) ts1 st1) as [Hbefore Hrest].
      { intros j x Hx. rewrite Hts1, list_lookup_insert_ne by lia.
        replace (S i + j)%nat with (i + S j)%nat by lia. apply Hat. exact Hx. }
      split.
      * intros j Hj. rewrite Hbefore by lia.
        rewrite Hts1, list_lookup_insert_ne by lia. reflexivity.
      * intros [|j] x Hx Hx0.
        -- injection Hx as <-. exists st.
           rewrite Nat.add_0_r, Hbefore by lia.
           rewrite Hts1, list_lookup_insert_eq by exact Hi.
           rewrite Hrun. reflexivity.
        -- replace (i + S j)%nat with (S i + j)%nat by lia.
           apply Hrest; assumption.
    + set (ts1 := countCase tc ts).
      assert (Hts1 : ts_TestCases ts1 = ts_TestCases ts) by reflexivity.
      destruct (IH (S i) ts1 st) as [Hbefore Hrest].
      { intros j x Hx. rewrite Hts1.
        replace (S i + j)%nat with (i + S j)%nat by lia. apply Hat. exact Hx. }
      split.
      * intros j Hj. rewrite Hbefore by lia. rewrite Hts1. reflexivity.
      * intros [|j] x Hx Hx0.
        -- injection Hx as <-. apply Z.eqb_neq in Hsk. contradiction.
        -- replace (i + S j)%nat with (S i + j)%nat by lia.
           apply Hrest; assumption.
Qed.


(** *** Stop on the first record

    Two facts about the functions that are not in process.go are used
    here: the check evaluator reports no Error record when it answers OK,
    and a resolved binding has [retry < max_int] (so that [retry++] does
    not wrap). *)
Hypothesis checks_ok : forall result step d es fs,
  applyChecks result step d = (true, es, fs) -> es = [].
Hypothesis retry_bound : forall step e,
  getExecutorWrap step = Ok e -> retry e < max_int.

(** A step only appends, and it appends no Error without a Failure. *)
Lemma runTestStep_appends e tc step st :
  retry e < max_int ->
  exists X Y,
    tc_Failures (fst (runTestStep' e tc step st)) = tc_Failures tc ++ X
    /\ tc_Errors (fst (runTestStep' e tc step st)) = tc_Errors tc ++ Y
    /\ (Y <> [] -> X <> []).
Proof.
  intros Hmax.
  pose proof (runTestStep_spec applyChecks aliases e tc step st Hmax) as H.
  destruct (applyChecks None step (GetDefaultAssertions (executor e)))
    as [[ok0 es0] fs0] eqn:Hchk.
  cbv zeta in H. destruct H as (m & msgs & _ & _ & _ & _ & Hend).
  destruct Hend as [(-> & _ & H2 & H3)|[(_ & _ & H2 & H3)|(_ & _ & Hlt & H2 & H3)]].
  - apply checks_ok in Hchk. subst es0.
    eexists _, []. split; [exact H3|]. split; [exact H2|]. congruence.
  - eexists _, []. split; [exact H3|].
    split; [rewrite app_nil_r; exact H2|]. congruence.
  - eexists _, es0. split; [exact H3|]. split; [exact H2|].
    intros Hes. apply len_pos_iff in Hes. rewrite Hes, orb_true_r.
    assert (Hm : (Z.of_nat m >? 0) = true) by (apply Z.gtb_lt; lia).
    rewrite Hm. simpl. destruct (map mkFailure msgs), fs0; discriminate.
Qed.

Lemma caseLoop_appends steps : forall tc st,
  exists X Y,
    tc_Failures (fst (caseLoop' steps tc st)) = tc_Failures tc ++ X
    /\ tc_Errors (fst (caseLoop' steps tc st)) = tc_Errors tc ++ Y.
Proof.
  induction steps as [|step rest IH]; intros tc st; cbn [caseLoop].
  - exists [], []. rewrite !app_nil_r. split; reflexivity.
  - destruct (getExecutorWrap step) as [e|msg] eqn:He.
    + destruct (runTestStep_appends e tc step st (retry_bound _ _ He))
        as (X & Y & HX & HY & _).
      destruct (runTestStep' e tc step st) as [tc1 st1]. cbn [fst] in HX, HY.
      destruct (_ >? 0).
      * exists X, Y. split; assumption.
      * destruct (IH tc1 st1) as (X' & Y' & HX' & HY').
        exists (X ++ X'), (Y ++ Y').
        rewrite HX', HY', HX, HY, <- !app_assoc. split; reflexivity.
    + exists [], [mkFailure msg]. rewrite app_nil_r. split; reflexivity.
Qed.

(** Steps that leave no record do not end the loop. *)
Lemma caseLoop_app pre : forall tc st rest,
  tc_Failures tc = [] ->
  records (fst (caseLoop' pre tc st)) = records tc ->
  caseLoop' (pre ++ rest) tc st
  = caseLoop' rest (fst (caseLoop' pre tc st)) (snd (caseLoop' pre tc st))
  /\ tc_Failures (fst (caseLoop' pre tc st)) = [].
Proof.
  induction pre as [|step pre IH]; intros tc st rest Hnil Hrec.
  - split; [reflexivity | exact Hnil].
  - cbn [caseLoop app] in *.
    destruct (getExecutorWrap step) as [e|msg] eqn:He.
    + destruct (runTestStep_appends e tc step st (retry_bound _ _ He))
        as (X & Y & HX & HY & _).
      destruct (runTestStep' e tc step st) as [tc1 st1]. cbn [fst] in HX, HY.
      destruct (len (tc_Failures tc1) >? 0) eqn:Hlen.
      * exfalso. cbn [fst] in Hrec. apply len_pos_iff in Hlen.
        rewrite HX, HY, Hnil in *. rewrite !length_app in Hrec. simpl in *.
        destruct X; [congruence | simpl in Hrec; lia].
      * assert (Hnil1 : tc_Failures tc1 = []).
        { destruct (tc_Failures tc1) eqn:E; [reflexivity|].
          assert ((len (tc_Failures tc1) >? 0) = true)
            by (apply len_pos_iff; congruence).
          congruence. }
        destruct (caseLoop_appends pre tc1 st1) as (X' & Y' & HX' & HY').
        apply IH; [exact Hnil1|].
        rewrite HX', HY' in Hrec |- *. rewrite HX, HY in Hrec.
        rewrite !length_app in *. lia.
    + exfalso. cbn [fst] in Hrec. simpl in Hrec.
      rewrite length_app in Hrec. simpl in Hrec. lia.
Qed.

(** C2: within a case the steps run in file order and the loop ends with
    the first step that leaves a record.  For a case that starts without
    Failures, when the steps [pre] have run and left no record and the
    next step [step] leaves one (an Error or a Failure), the run of the
    whole case is the run of [pre] followed by [step] and nothing else: no
    step of [post] is called.  The suite goes
    on all the same: every case of the suite whose [Skipped] is 0 is
    handed to the case runner, whatever the cases before it recorded. *)
Theorem runTestCase_stops_at_first_record :
  (forall pre step post tc st,
     tc_Failures tc = [] ->
     let tc1 := fst (caseLoop' pre tc st) in
     let st1 := snd (caseLoop' pre tc st) in
     records tc1 = records tc ->
     records (fst (caseLoop' [step] tc1 st1)) <> records tc1 ->
     caseLoop' (pre ++ step :: post) tc st = caseLoop' [step] tc1 st1)
  /\ (forall ts st (i : nat) tc,
        ts_TestCases ts !! i = Some tc -> tc_Skipped tc = 0 ->
        exists st_i,
          ts_TestCases (fst (runTestSuite' ts st)) !! i
          = Some (fst (runTestCase' tc st_i))).
Proof.
  split.
  - intros pre step post tc st Hnil tc1 st1 Hrec Hgrow.
    destruct (caseLoop_app pre tc st (step :: post) Hnil Hrec) as [-> Hnil1].
    fold tc1 st1 in Hnil1 |- *. cbn [caseLoop] in *.
    destruct (getExecutorWrap step) as [e|msg] eqn:He; [|reflexivity].
    destruct (runTestStep_appends e tc1 step st1 (retry_bound _ _ He))
      as (X & Y & HX & HY & HXY).
    destruct (runTestStep' e tc1 step st1) as [tc2 st2]. cbn [fst] in HX, HY.
    destruct (len (tc_Failures tc2) >? 0) eqn:Hlen; [reflexivity|].
    exfalso. apply Hgrow. cbn [fst].
    assert (HX0 : X = []).
    { destruct X; [reflexivity|]. exfalso.
      assert ((len (tc_Failures tc2) >? 0) = true)
        by (apply len_pos_iff; rewrite HX; destruct (tc_Failures tc1); discriminate).
      congruence. }
    assert (HY0 : Y = []).
    { destruct Y; [reflexivity|]. exfalso. apply HXY; [discriminate|exact HX0]. }
    rewrite HX, HY, HX0, HY0, !app_nil_r. reflexivity.
  - intros ts st i tc Hi Hsk.
    destruct (suiteLoop_cases (ts_TestCases ts) O ts st) as [_ H].
    + intros j x Hx. exact Hx.
    + apply (H i tc Hi Hsk).
Qed.

End CaseRunner.
End CaseFacts.

(** ** Skipped cases, from the parse task to the collector *)
Module SuiteFacts.
Import GoInt GoIntFacts CaseFacts.

Section SuiteRunner.

Context {TestStep ResultMap World : Type}.
Variable getExecutorWrap : TestStep -> @resolved TestStep ResultMap World.
Variable applyChecks :
  @ExecutorResult ResultMap -> TestStep -> option StepAssertions ->
  bool * list Failure * list Failure.
Variable aliases : gmap string string.

Implicit Types (tc : @TestCase TestStep) (ts : @TestSuite TestStep)
  (st : @St TestStep World) (cases : list (@TestCase TestStep)).

Local Abbreviation runTestCase' :=
  (runTestCase getExecutorWrap applyChecks aliases).
Local Abbreviation suiteLoop' :=
  (suiteLoop getExecutorWrap applyChecks aliases).
Local Abbreviation completeSuite' :=
  (completeSuite getExecutorWrap applyChecks aliases).

(** The number of cases marked as skipped. *)
Local Abbreviation marked cases :=
  (len (List.filter (fun tc => tc_Skipped tc =? 1) cases)).

Lemma marked_cons tc cases :
  marked (tc :: cases)
  = (if tc_Skipped tc =? 1 then 1 else 0) + marked cases.
Proof.
  cbn [List.filter]. destruct (tc_Skipped tc =? 1); [|lia].
  unfold len. cbn [length]. lia.
Qed.

Lemma scanSkipped_marked cases : forall s0,
  0 <= s0 -> s0 + marked cases <= max_int ->
  scanSkipped cases s0 = s0 + marked cases.
Proof.
  unfold scanSkipped.
  induction cases as [|tc cases IH]; intros s0 H0 Hmax.
  - unfold len. simpl. lia.
  - rewrite marked_cons in Hmax |- *. cbn [fold_left].
    pose proof (len_nonneg (List.filter (fun tc => tc_Skipped tc =? 1) cases)).
    destruct (tc_Skipped tc =? 1).
    + rewrite incr_small by (unfold min_int; lia). rewrite IH; lia.
    + rewrite IH; lia.
Qed.

Lemma countCase_Skipped tc ts :
  tc_Skipped tc <= 1 -> 0 <= ts_Skipped ts -> ts_Skipped ts < max_int ->
  ts_Skipped (countCase tc ts)
  = ts_Skipped ts + (if tc_Skipped tc =? 1 then 1 else 0).
Proof.
  intros Hle H0 Hmax. unfold countCase. cbn [ts_Skipped setCounters].
  destruct (Z.eqb_spec (tc_Skipped tc) 1) as [E|E].
  - rewrite E. change (1 >? 0) with true. cbv iota.
    apply wrap_id. unfold in_range, min_int. lia.
  - destruct (Z.gtb_spec (tc_Skipped tc) 0); lia.
Qed.

Lemma suiteLoop_Skipped cases : forall (i : nat) ts st,
  Forall (fun tc => tc_Skipped tc <= 1) cases ->
  0 <= ts_Skipped ts -> ts_Skipped ts + marked cases <= max_int ->
  ts_Skipped (fst (suiteLoop' i cases ts st)) = ts_Skipped ts + marked cases.
Proof.
  induction cases as [|tc cases IH]; intros i ts st Hall H0 Hmax.
  - unfold len. simpl. lia.
  - rewrite marked_cons in Hmax |- *. cbn [suiteLoop].
    pose proof (len_nonneg (List.filter (fun tc => tc_Skipped tc =? 1) cases)).
    inversion Hall as [|? ? Hle Hall']; subst.
    destruct (tc_Skipped tc =? 0) eqn:Hz.
    + apply Z.eqb_eq in Hz.
      pose proof (runTestCase_Skipped getExecutorWrap applyChecks aliases tc st)
        as Hsk.
      destruct (runTestCase' tc st) as [tc1 st1]. cbn [fst] in Hsk.
      rewrite Hz in Hmax, Hsk |- *. change (0 =? 1) with false in *.
      cbv iota in *.
      assert (Hc : ts_Skipped
                     (countCase tc1
                        (setTestCases ts (<[ i := tc1 ]> (ts_TestCases ts))))
                   = ts_Skipped ts).
      { unfold countCase. cbn [ts_Skipped setCounters setTestCases].
        rewrite Hsk. reflexivity. }
      rewrite IH; rewrite ?Hc; [lia | exact Hall' | lia | lia].
    + destruct (Z.eqb_spec (tc_Skipped tc) 1) as [E|E].
      * assert (Hc := countCase_Skipped tc ts Hle H0 ltac:(lia)).
        rewrite E in Hc. change (1 =? 1) with true in Hc. cbv iota in Hc.
        rewrite IH; rewrite ?Hc; [lia | exact Hall' | lia | lia].
      * assert (Hc : ts_Skipped (countCase tc ts) = ts_Skipped ts).
        { unfold countCase. cbn [ts_Skipped setCounters].
          destruct (Z.gtb_spec (tc_Skipped tc) 0); [lia|reflexivity]. }
        rewrite IH; rewrite ?Hc; [lia | exact Hall' | lia | lia].
Qed.

(** C9: for a decoded suite whose [Skipped] counter starts at 0 and whose
    cases carry a [Skipped] mark of at most 1, with [k] cases marked, the
    parse task counts [k], the suite runner counts the same cases again,
    and the suite reaches the collector with [Skipped == 2k], which is
    what the collector adds to [TotalSkipped]. *)
Theorem skipped_counted_twice (f : string) ts st (tr : @Tests TestStep) :
  ts_Skipped ts = 0 ->
  Forall (fun tc => tc_Skipped tc <= 1) (ts_TestCases ts) ->
  let k := len (List.filter (fun tc => tc_Skipped tc =? 1) (ts_TestCases ts)) in
  2 * k <= max_int ->
  let t := completeSuite' f ts st in
  ts_Skipped (prepareSuite f ts) = k
  /\ ts_Skipped t = 2 * k
  /\ tr_TotalSkipped (collect tr t)
     = (if k >? 0 then add (tr_TotalSkipped tr) (2 * k) else tr_TotalSkipped tr).
Proof.
  intros Hs0 Hall k Hmax t.
  pose proof (len_nonneg
    (List.filter (fun tc => tc_Skipped tc =? 1) (ts_TestCases ts))) as Hk.
  fold k in Hk.
  assert (Hprep : ts_Skipped (prepareSuite f ts) = k).
  { cbn [prepareSuite ts_Skipped]. rewrite Hs0.
    rewrite scanSkipped_marked; fold k; lia. }
  assert (Ht : ts_Skipped t = 2 * k).
  { unfold t, completeSuite, runTestSuite.
    rewrite suiteLoop_Skipped; cbn [prepareSuite ts_TestCases];
      [| exact Hall | |]; fold (prepareSuite f ts); rewrite ?Hprep; fold k; lia. }
  split; [exact Hprep|]. split; [exact Ht|].
  unfold collect. cbn [tr_TotalSkipped]. rewrite Ht.
  destruct (Z.gtb_spec k 0), (Z.gtb_spec (2 * k) 0); try lia; reflexivity.
Qed.

End SuiteRunner.
End SuiteFacts.

(** ** Runs on the mock executors *)
Module Examples.
Import GoInt GoIntFacts.

Local Abbreviation tc0 := (Mock.case "case" [] 0).

Lemma Mock_checks_ok : forall result step d es fs,
  Mock.applyChecks result step d = (true, es, fs) -> es = [].
Proof.
  intros result step d es fs. unfold Mock.applyChecks.
  destruct (Mock.s_expect step) as [n|]; [|congruence].
  destruct result as [m|]; [|congruence].
  destruct (m !! "result.statusCode") as [v|]; [|congruence].
  destruct (v =? n); congruence.
Qed.

Lemma Mock_retry_bound : forall step e,
  Mock.getExecutorWrap step = Ok e -> retry e < max_int.
Proof.
  intros step e. unfold Mock.getExecutorWrap, Mock.wrapStep, Mock.maxRetry.
  destruct (Z.ltb_spec (Mock.s_retry step) 0); [discriminate|].
  destruct (Z.ltb_spec 100 (Mock.s_retry step)); [discriminate|]. simpl.
  repeat (destruct (String.eqb _ _);
          [intros [= <-]; simpl; unfold max_int; lia|]).
  discriminate.
Qed.

(** The executor answers [statusCode=200] with a nil error, in time; what
    [runTestStepExecutor] returns is a nil result and a nil error. *)
Example runTestStepExecutor_ok200 :
  let s := Mock.step "ok200" 0 (Some 200) in
  Run (executor (Mock.binding s)) Mock.aliases s O
    = (Returned (Some {[ "result.statusCode" := 200 ]}) None, 1%nat)
  /\ fst (runTestStepExecutor Mock.aliases (Mock.binding s) s Mock.st0)
     = (None, None).
Proof. split; reflexivity. Qed.

(** So the end-to-end example of the specification does not come out: the
    assertion [result.statusCode ShouldEqual 200] is checked against nil. *)
Example runTestSuite_ok200 :
  let s := Mock.step "ok200" 0 (Some 200) in
  let ts := fst (Mock.runTestSuite
                   (Mock.suite "suite" [Mock.case "case" [s] 0]) Mock.st0) in
  ts_Failures ts = 1 /\ ts_Errors ts = 1.
Proof. split; reflexivity. Qed.

(** A case [A; B; C] whose first step fails: one call, of [A]. *)
Example runTestCase_A_fails :
  let A := Mock.step "notfound404" 0 (Some 200) in
  let B := Mock.step "ok200" 0 None in
  let C := Mock.step "refused" 0 None in
  snd (Mock.runTestCase (Mock.case "case" [A; B; C] 0) Mock.st0)
  = {| world := 1%nat; trace := [EvRun A] |}.
Proof. reflexivity. Qed.

(** A step with [retry=2] whose checks fail: three calls, and the Failure
    that notes the three attempts. *)
Example runTestStep_retry2 :
  let s := Mock.step "notfound404" 2 (Some 200) in
  Mock.runTestStep (Mock.binding s) tc0 s Mock.st0
  = ({| tc_Name := "case"; tc_TestSteps := []; tc_Skipped := 0;
        tc_Failures := [mkFailure "It's a failure after 3 attempt(s)"];
        tc_Errors := [Mock.missingKey] |},
     {| world := 3%nat;
        trace := [EvRun s; EvRun s; EvSleep 5; EvRun s] |}).
Proof. reflexivity. Qed.

(** C2 on a case [P; A; B; C]: [P] passes and leaves no record, [A] leaves
    one, and the run of the case ends there. *)
Lemma runTestCase_stops_at_first_record_witness :
  let P := Mock.step "ok200" 0 None in
  let A := Mock.step "ok200" 0 (Some 200) in
  let B := Mock.step "ok200" 0 None in
  let C := Mock.step "refused" 0 None in
  let run steps :=
    caseLoop Mock.getExecutorWrap Mock.applyChecks Mock.aliases steps in
  run ([P] ++ A :: [B; C]) tc0 Mock.st0
  = run [A] (fst (run [P] tc0 Mock.st0)) (snd (run [P] tc0 Mock.st0))
  /\ trace (snd (run [P; A; B; C] tc0 Mock.st0)) = [EvRun P; EvRun A].
Proof.
  split; [|reflexivity].
  destruct (CaseFacts.runTestCase_stops_at_first_record
              Mock.getExecutorWrap Mock.applyChecks Mock.aliases
              Mock_checks_ok Mock_retry_bound) as [H _].
  apply (H [Mock.step "ok200" 0 None] (Mock.step "ok200" 0 (Some 200))
           [Mock.step "ok200" 0 None; Mock.step "refused" 0 None]
           tc0 Mock.st0).
  - reflexivity.
  - reflexivity.
  - vm_compute. lia.
Defined.

(** C3 does not hold as stated: the error of the executor call and the
    timeout are found among the Failures of the case, not among its
    Errors. *)
Lemma attempt_error_not_an_Error :
  let r := Mock.step "refused" 0 None in
  let s := Mock.step "stuck" 0 None in
  let tr := fst (Mock.runTestStep (Mock.binding r) tc0 r Mock.st0) in
  let ts := fst (Mock.runTestStep (Mock.binding s) tc0 s Mock.st0) in
  ~ In (mkFailure "connection refused") (tc_Errors tr)
  /\ In (mkFailure "connection refused") (tc_Failures tr)
  /\ ~ In (mkFailure "Timeout after 1 second(s)") (tc_Errors ts)
  /\ In (mkFailure "Timeout after 1 second(s)") (tc_Failures ts).
Proof.
  vm_compute. repeat split; try (now left); intros [].
Qed.

Lemma attempt_error_is_Failure_witness :
  let s := Mock.step "stuck" 0 None in
  let l := mkLoop 0 false [] [] tc0 Mock.st0 in
  let l' := fst (attempt Mock.applyChecks Mock.aliases (Mock.binding s) s l) in
  Run (executor (Mock.binding s)) Mock.aliases s (world (l_st l))
    = (DeadlineFirst, 1%nat)
  /\ tc_Failures (l_tc l') = [mkFailure "Timeout after 1 second(s)"]
  /\ tc_Errors (l_tc l') = [].
Proof.
  split; [reflexivity|].
  destruct (StepFacts.attempt_error_is_Failure Mock.applyChecks Mock.aliases
              (Mock.binding (Mock.step "stuck" 0 None))
              (Mock.step "stuck" 0 None)
              (mkLoop 0 false [] [] tc0 Mock.st0) DeadlineFirst 1%nat eq_refl)
    as [_ H].
  destruct (H eq_refl) as (H1 & H2 & _). split; [exact H1 | exact H2].
Defined.

(** C4: with [retry=0] there is one attempt and no retry, and the Failure
    that notes the attempts is appended all the same: after the loop
    [retry] is 1, so the guard [retry > 0] lets it in. *)
Theorem runTestStep_synthetic_without_retry :
  let s := Mock.step "notfound404" 0 (Some 200) in
  Mock.runTestStep (Mock.binding s) tc0 s Mock.st0
  = ({| tc_Name := "case"; tc_TestSteps := []; tc_Skipped := 0;
        tc_Failures := [mkFailure "It's a failure after 1 attempt(s)"];
        tc_Errors := [Mock.missingKey] |},
     {| world := 1%nat; trace := [EvRun s] |}).
Proof. reflexivity. Qed.

(** C5 does not hold as stated: with [retry=1] the checks run on both
    attempts and report one Error each time; the case ends with one such
    record, not two. *)
Lemma runTestStep_keeps_last_check_only :
  let s := Mock.step "ok200" 1 (Some 200) in
  let run := Mock.runTestStep (Mock.binding s) tc0 s Mock.st0 in
  trace (snd run) = [EvRun s; EvRun s]
  /\ Mock.applyChecks None s None = (false, [Mock.missingKey], [])
  /\ tc_Errors (fst run) = [Mock.missingKey]
  /\ tc_Errors (fst run) <> [Mock.missingKey] ++ [Mock.missingKey].
Proof.
  repeat split; try reflexivity. vm_compute. discriminate.
Qed.

Lemma runTestStep_check_records_once_witness :
  let s := Mock.step "ok200" 1 (Some 200) in
  let tc' := fst (Mock.runTestStep (Mock.binding s) tc0 s Mock.st0) in
  retry (Mock.binding s) < max_int
  /\ attemptErrors Mock.aliases (Mock.binding s) s false 2 O = [None; None]
  /\ tc_Errors tc' = [] ++ [Mock.missingKey]
  /\ tc_Failures tc' = [] ++ [] ++ [] ++ [syntheticFailure 2].
Proof.
  assert (Hb : retry (Mock.binding (Mock.step "ok200" 1 (Some 200))) < max_int)
    by (vm_compute; reflexivity).
  split; [exact Hb|]. split; [reflexivity|].
  exact (proj2 (StepFacts.runTestStep_check_records_once
                  Mock.applyChecks Mock.aliases
                  (Mock.binding (Mock.step "ok200" 1 (Some 200))) tc0
                  (Mock.step "ok200" 1 (Some 200)) Mock.st0 Hb)).
Defined.

(** C6 does not hold as stated: one suite of one case, marked as skipped.
    [suite.Total] is 1; the aggregate ends with [Total == 3]. *)
Lemma Total_is_not_the_case_count :
  let ts := Mock.suite "suite" [Mock.case "case" [] 1] in
  let tr := Mock.Process [("suite.yml", ts, Mock.st0)] in
  tr_Total tr = 3
  /\ fold_right Z.add 0 (map ts_Total (tr_TestSuites tr)) = 1
  /\ tr_Total tr <> fold_right Z.add 0 (map ts_Total (tr_TestSuites tr)).
Proof.
  vm_compute. repeat split; discriminate.
Qed.


Lemma skipped_counted_twice_witness :
  let ts := Mock.suite "suite"
              [Mock.case "a" [] 1; Mock.case "b" [] 0; Mock.case "c" [] 1] in
  let t := completeSuite Mock.getExecutorWrap Mock.applyChecks Mock.aliases
             "suite.yml" ts Mock.st0 in
  ts_Skipped ts = 0
  /\ ts_Skipped (prepareSuite "suite.yml" ts) = 2
  /\ ts_Skipped t = 2 * 2
  /\ tr_TotalSkipped (collect noTests t) = add 0 (2 * 2).
Proof.
  split; [reflexivity|].
  apply (SuiteFacts.skipped_counted_twice
           Mock.getExecutorWrap Mock.applyChecks Mock.aliases "suite.yml"
           (Mock.suite "suite"
              [Mock.case "a" [] 1; Mock.case "b" [] 0; Mock.case "c" [] 1])
           Mock.st0 noTests).
  - reflexivity.
  - repeat constructor; simpl; lia.
  - vm_compute. discriminate.
Defined.

End Examples.

(** ** Split, Join and the alias map *)
Module AliasFacts.
Import Strings.

Local Open Scope string_scope.

Lemma append_cons x (a b : string) : String x a ++ b = String x (a ++ b).
Proof. reflexivity. Qed.

Lemma append_nil_l (s : string) : "" ++ s = s.
Proof. reflexivity. Qed.

Lemma append_nil_r (s : string) : s ++ "" = s.
Proof.
  induction s as [|x s IH]; [reflexivity|]. now rewrite append_cons, IH.
Qed.

Lemma append_assoc (a b c : string) : (a ++ b) ++ c = a ++ (b ++ c).
Proof.
  induction a as [|x a IH]; [reflexivity|]. now rewrite !append_cons, IH.
Qed.

Lemma rev_app_append (s t : string) :
  String.rev_app s t = String.rev_app s "" ++ t.
Proof.
  revert t. induction s as [|x s IH]; intros t; simpl; [reflexivity|].
  rewrite (IH (String x t)), (IH (String x "")), append_assoc. reflexivity.
Qed.

Lemma rev_cons x (s : string) :
  String.rev (String x s) = String.rev s ++ String x "".
Proof. unfold String.rev. simpl. apply rev_app_append. Qed.

Lemma splitOn_cons c acc s :
  exists f fs, splitOn c acc s = f :: fs.
Proof.
  revert acc. induction s as [|x s IH]; intros acc; simpl; [eauto|].
  destruct (Ascii.eqb x c); eauto.
Qed.

Lemma Join_cons f g fs sep :
  Join (f :: g :: fs) sep = f ++ sep ++ Join (g :: fs) sep.
Proof. reflexivity. Qed.

Lemma splitOn_Join c acc s :
  Join (splitOn c acc s) (String c "") = String.rev acc ++ s.
Proof.
  revert acc. induction s as [|x s IH]; intros acc; simpl splitOn.
  - simpl. now rewrite append_nil_r.
  - destruct (Ascii.eqb_spec x c) as [->|Hne].
    + destruct (splitOn_cons c "" s) as (f & fs & Hs).
      specialize (IH ""). rewrite Hs in IH |- *.
      rewrite Join_cons, IH. reflexivity.
    + rewrite IH, rev_cons, append_assoc. reflexivity.
Qed.

Lemma splitOn_Join_empty c acc s :
  Join (splitOn c acc s) "" = String.rev acc ++ without c s.
Proof.
  revert acc. induction s as [|x s IH]; intros acc; simpl splitOn; simpl without.
  - simpl. now rewrite append_nil_r.
  - destruct (Ascii.eqb_spec x c) as [->|Hne].
    + destruct (splitOn_cons c "" s) as (f & fs & Hs).
      specialize (IH ""). rewrite Hs in IH |- *.
      rewrite Join_cons, IH. reflexivity.
    + rewrite IH, rev_cons, append_assoc. reflexivity.
Qed.

Lemma contains_append c a b :
  contains c (a ++ b) = contains c a || contains c b.
Proof.
  induction a as [|x a IH]; [reflexivity|].
  rewrite append_cons. simpl. rewrite IH, orb_assoc. reflexivity.
Qed.

Lemma contains_rev c s : contains c (String.rev s) = contains c s.
Proof.
  induction s as [|x s IH]; [reflexivity|].
  rewrite rev_cons, contains_append, IH. simpl. rewrite orb_false_r.
  apply orb_comm.
Qed.

Lemma contains_without c s : contains c (without c s) = false.
Proof.
  induction s as [|x s IH]; simpl; [reflexivity|].
  destruct (Ascii.eqb x c) eqn:E; [exact IH|]. simpl. now rewrite E, IH.
Qed.

Lemma without_id c s : contains c s = false -> without c s = s.
Proof.
  induction s as [|x s IH]; simpl; [reflexivity|].
  destruct (Ascii.eqb x c); simpl; [discriminate|]. intros H. now rewrite IH.
Qed.

Lemma splitOn_fields c acc s :
  contains c acc = false ->
  Forall (fun f => contains c f = false) (splitOn c acc s).
Proof.
  revert acc. induction s as [|x s IH]; intros acc Hacc; simpl splitOn.
  - constructor; [now rewrite contains_rev | constructor].
  - destruct (Ascii.eqb x c) eqn:E.
    + constructor; [now rewrite contains_rev | now apply IH].
    + apply IH. simpl. now rewrite E, Hacc.
Qed.

(** The number of occurrences of [c]. *)
Local Abbreviation occurrences c s :=
  (String.length s - String.length (without c s))%nat.

Lemma length_without_le c s :
  (String.length (without c s) <= String.length s)%nat.
Proof.
  induction s as [|x s IH]; simpl; [lia|].
  destruct (Ascii.eqb x c); simpl; lia.
Qed.

Lemma splitOn_length c acc s :
  List.length (splitOn c acc s) = S (occurrences c s).
Proof.
  revert acc. induction s as [|x s IH]; intros acc; simpl splitOn;
    simpl without; [reflexivity|].
  pose proof (length_without_le c s).
  destruct (Ascii.eqb x c); simpl; rewrite IH; lia.
Qed.

Lemma splitOn_no_sep c acc s :
  contains c s = false -> splitOn c acc s = [String.rev acc ++ s].
Proof.
  revert acc. induction s as [|x s IH]; intros acc; simpl.
  - now rewrite append_nil_r.
  - destruct (Ascii.eqb x c); simpl; [discriminate|]. intros H.
    rewrite IH by exact H. now rewrite rev_cons, append_assoc.
Qed.

Lemma splitOn_first c acc k v :
  contains c k = false ->
  splitOn c acc (k ++ String c v) = (String.rev acc ++ k) :: splitOn c "" v.
Proof.
  revert acc. induction k as [|x k IH]; intros acc.
  - rewrite append_nil_l, append_nil_r. simpl. now rewrite Ascii.eqb_refl.
  - rewrite append_cons. simpl.
    destruct (Ascii.eqb x c); simpl; [discriminate|]. intros H.
    rewrite IH by exact H. now rewrite rev_cons, append_assoc.
Qed.

(** Joining the fields of [Split] with the separator gives the string
    back. *)
Theorem Split_Join_roundtrip (s : string) (sep : ascii) :
  Join (Split s sep) (String sep "") = s.
Proof. unfold Split. apply splitOn_Join. Qed.

(** [Split] returns one field more than the separator occurs in the
    string (so at least one), and no field contains the separator. *)
Theorem Split_fields (s : string) (sep : ascii) :
  List.length (Split s sep)
  = S (String.length s - String.length (without sep s))
  /\ Forall (fun f => contains sep f = false) (Split s sep).
Proof.
  unfold Split. split; [apply splitOn_length | now apply splitOn_fields].
Qed.

Lemma parseAlias_plain (aliases : gmap string string) a :
  contains ":" a = false -> parseAlias aliases a = aliases.
Proof.
  intros Ha. unfold parseAlias, Split. rewrite splitOn_no_sep by exact Ha.
  reflexivity.
Qed.

Lemma parseAlias_colon (aliases : gmap string string) k v :
  contains ":" k = false ->
  parseAlias aliases (k ++ ":" ++ v) = <[ k := without ":" v ]> aliases.
Proof.
  intros Hk. unfold parseAlias, Split.
  change (":" ++ v) with (String ":" v).
  rewrite splitOn_first by exact Hk.
  change (String.rev "" ++ k) with k.
  pose proof (splitOn_length ":" "" v) as Hlen.
  destruct (Z.ltb_spec (GoInt.len (k :: splitOn ":" "" v)) 2) as [H|H].
  - unfold GoInt.len in H. simpl List.length in H. lia.
  - rewrite (splitOn_Join_empty ":" "" v). reflexivity.
Qed.

(** X1: an alias without a colon leaves the map as it is; an alias
    [k:v], with no colon in [k], binds [k] (also the empty [k]) to [v]
    with every colon of [v] taken out, replacing what [k] was bound to. *)
Theorem parseAlias_binding (aliases : gmap string string) :
  (forall a, contains ":" a = false -> parseAlias aliases a = aliases)
  /\ (forall k v, contains ":" k = false ->
        parseAlias aliases (k ++ ":" ++ v) = <[ k := without ":" v ]> aliases).
Proof.
  split; [apply parseAlias_plain | apply parseAlias_colon].
Qed.

Lemma parseAlias_binding_witness :
  contains ":" "bad-entry" = false
  /\ parseAlias ∅ "bad-entry" = ∅
  /\ parseAlias ∅ (":" ++ "a:b") = <[ "" := "ab" ]> ∅.
Proof.
  destruct (parseAlias_binding ∅) as [H1 H2].
  split; [reflexivity|]. split; [apply H1; reflexivity|].
  apply (H2 "" "a:b"). reflexivity.
Defined.


Lemma Join_free c fs :
  Forall (fun f => contains c f = false) fs -> contains c (Join fs "") = false.
Proof.
  induction 1 as [|f fs Hf _ IH]; [reflexivity|].
  destruct fs as [|g fs]; [exact Hf|].
  rewrite Join_cons, contains_append, Hf, append_nil_l. exact IH.
Qed.

(** The keys and the values of a map are free of the colon. *)
Local Abbreviation free m :=
  (forall k v, (m : gmap string string) !! k = Some v ->
     contains ":" k = false /\ contains ":" v = false).

Lemma parseAlias_free m a : free m -> free (parseAlias m a).
Proof.
  intros Hm. unfold parseAlias, Split.
  destruct (GoInt.len _ <? 2)%Z; [exact Hm|].
  pose proof (splitOn_fields ":" "" a eq_refl) as Hf.
  destruct (splitOn ":" "" a) as [|t0 t1]; [exact Hm|].
  inversion Hf as [|? ? H0 H1]; subst.
  intros k v. destruct (decide (k = t0)) as [->|Hne].
  - rewrite lookup_insert_eq. intros [= <-]. split; [exact H0|].
    apply Join_free. exact H1.
  - rewrite lookup_insert_ne by congruence. apply Hm.
Qed.

Lemma fold_parseAlias_free alias : forall m,
  free m -> free (fold_left parseAlias alias m).
Proof.
  induction alias as [|a alias IH]; intros m Hm; [exact Hm|].
  simpl. apply IH, parseAlias_free, Hm.
Qed.

(** X2: no key and no value of the alias map ever contains a colon. *)
Theorem parseAliases_no_colon (alias : list string) (k v : string) :
  parseAliases alias !! k = Some v ->
  contains ":" k = false /\ contains ":" v = false.
Proof.
  apply (fold_parseAlias_free alias ∅). intros k' v' H.
  rewrite lookup_empty in H. discriminate.
Qed.

Lemma parseAliases_no_colon_witness :
  parseAliases ["URL:http://example.com:8080"] !! "URL"
    = Some "http//example.com8080"
  /\ contains ":" "URL" = false
  /\ contains ":" "http//example.com8080" = false.
Proof.
  split; [reflexivity|].
  exact (parseAliases_no_colon ["URL:http://example.com:8080"] "URL"
           "http//example.com8080" eq_refl).
Defined.

(** An alias that is not of the form [k:...] leaves the binding of [k]
    alone. *)
Lemma parseAlias_other (m : gmap string string) a k :
  (forall v', a <> k ++ ":" ++ v') -> parseAlias m a !! k = m !! k.
Proof.
  intros Hne. unfold parseAlias, Split.
  pose proof (splitOn_Join ":" "" a) as Hj.
  change (String.rev "" ++ a) with a in Hj.
  destruct (Z.ltb_spec (GoInt.len (splitOn ":" "" a)) 2) as [|Hlen];
    [reflexivity|].
  destruct (splitOn ":" "" a) as [|t0 [|g fs]];
    [reflexivity | unfold GoInt.len in Hlen; simpl in Hlen; lia |].
  rewrite Join_cons in Hj.
  apply lookup_insert_ne. intros ->. apply (Hne (Join (g :: fs) ":")).
  symmetry. exact Hj.
Qed.

Lemma fold_parseAlias_other after k : forall m : gmap string string,
  Forall (fun a => forall v', a <> k ++ ":" ++ v') after ->
  fold_left parseAlias after m !! k = m !! k.
Proof.
  induction after as [|a after IH]; intros m Hall; [reflexivity|].
  inversion Hall as [|? ? Ha Hrest]; subst. cbn [fold_left].
  rewrite IH by exact Hrest. apply parseAlias_other, Ha.
Qed.

(** X3: the last alias of the list that names a key decides what the key
    is bound to: when an alias [k:v] is followed only by aliases that are
    not of the form [k:...], whatever comes before it, [k] is bound to [v]
    without its colons. *)
Theorem parseAliases_last_wins (before after : list string) (k v : string) :
  contains ":" k = false ->
  Forall (fun a => forall v', a <> k ++ ":" ++ v') after ->
  parseAliases (before ++ (k ++ ":" ++ v)%string :: after)%list !! k
  = Some (without ":" v).
Proof.
  intros Hk Hafter. unfold parseAliases. rewrite fold_left_app.
  cbn [fold_left]. rewrite fold_parseAlias_other by exact Hafter.
  rewrite parseAlias_colon by exact Hk. apply lookup_insert_eq.
Qed.

Lemma parseAliases_last_wins_witness :
  contains ":" "A" = false
  /\ Forall (fun a => forall v', a <> "A" ++ ":" ++ v') ["C:4"; "plain"]
  /\ parseAliases
       (["A:1"] ++ ("A" ++ ":" ++ "3")%string :: ["C:4"; "plain"])%list !! "A"
     = Some "3".
Proof.
  assert (H : Forall (fun a => forall v', a <> "A" ++ ":" ++ v')
                ["C:4"; "plain"])
    by (repeat constructor; intros v'; discriminate).
  split; [reflexivity|]. split; [exact H|].
  exact (parseAliases_last_wins ["A:1"] ["C:4"; "plain"] "A" "3" eq_refl H).
Defined.

End AliasFacts.

(** ** rightPad *)
Module PadFacts.
Import Strings GoInt AliasFacts.

Local Open Scope string_scope.

Lemma length_append (a b : string) :
  String.length (a ++ b) = (String.length a + String.length b)%nat.
Proof.
  induction a as [|x a IH]; [reflexivity|].
  rewrite append_cons. simpl. now rewrite IH.
Qed.

Lemma length_repeatString s n :
  String.length (repeatString s n) = (n * String.length s)%nat.
Proof.
  induction n as [|n IH]; [reflexivity|].
  simpl repeatString. rewrite length_append, IH. simpl. lia.
Qed.

Lemma length_substring n s :
  (n <= String.length s)%nat -> String.length (substring 0 n s) = n.
Proof.
  revert s. induction n as [|n IH]; intros [|x s] H; simpl in *;
    try reflexivity; try lia.
  rewrite IH; lia.
Qed.

Lemma substring_append_l n a b :
  (n <= String.length a)%nat -> substring 0 n (a ++ b) = substring 0 n a.
Proof.
  revert a. induction n as [|n IH]; intros [|x a] H; simpl in H; try lia.
  - destruct b; reflexivity.
  - reflexivity.
  - rewrite append_cons. simpl. rewrite IH by lia. reflexivity.
Qed.

Lemma substring_append_r n a b :
  (String.length a <= n)%nat ->
  substring 0 n (a ++ b) = a ++ substring 0 (n - String.length a) b.
Proof.
  revert n. induction a as [|x a IH]; intros n H.
  - rewrite !append_nil_l. simpl. now rewrite Nat.sub_0_r.
  - simpl in H. destruct n as [|n]; [lia|].
    rewrite !append_cons. simpl. rewrite IH by lia. reflexivity.
Qed.

Lemma substring_repeat_char c n m :
  (n <= m)%nat ->
  substring 0 n (repeatString (String c "") m) = repeatString (String c "") n.
Proof.
  revert m. induction n as [|n IH]; intros [|m] H; try lia.
  - reflexivity.
  - reflexivity.
  - simpl repeatString. rewrite !append_cons, !append_nil_l. simpl.
    rewrite IH by lia. reflexivity.
Qed.

(** X4: [rightPad] panics exactly when the length asked for is negative,
    when the padding overflows an int, or when the padding string is
    empty and [s] is shorter than the length asked for; otherwise it
    returns a string of exactly [pLen] bytes. *)
Theorem rightPad_total (s padStr : string) (pLen : Z) :
  (rightPad s padStr pLen = None
   <-> (pLen < 0
        \/ Z.of_nat (String.length padStr) * pLen > max_int
        \/ (padStr = "" /\ Z.of_nat (String.length s) < pLen)))%Z
  /\ (forall r, rightPad s padStr pLen = Some r ->
        Z.of_nat (String.length r) = pLen).
Proof.
  unfold rightPad, Repeat, sliceTo.
  destruct (Z.ltb_spec pLen 0) as [Hneg|Hpos].
  { split; [split; [intros _; now left | reflexivity] | discriminate]. }
  destruct (Z.gtb_spec (Z.of_nat (String.length padStr) * pLen) max_int)
    as [Hov|Hov].
  { split; [split; [intros _; right; left; lia | reflexivity] | discriminate]. }
  rewrite length_append, length_repeatString. simpl orb.
  destruct (Z.ltb_spec
              (Z.of_nat (String.length s
                         + Z.to_nat pLen * String.length padStr)) pLen)
    as [Hshort|Hlong].
  - split; [|discriminate]. split; [|reflexivity]. intros _. right; right.
    destruct padStr as [|x p]; [split; [reflexivity|simpl in Hshort; lia]|].
    simpl String.length in Hshort. exfalso. nia.
  - split.
    + split; [discriminate|]. intros [H|[H|[-> H]]]; try lia.
      simpl in Hlong. lia.
    + intros r [= <-]. rewrite length_substring.
      * lia.
      * rewrite length_append, length_repeatString. lia.
Qed.

Lemma rightPad_total_witness :
  rightPad "suite.yml" " " 12 = Some "suite.yml   "
  /\ Z.of_nat (String.length "suite.yml   ") = 12%Z.
Proof.
  split; [reflexivity|].
  exact (proj2 (rightPad_total "suite.yml" " " 12) "suite.yml   " eq_refl).
Defined.

(** X5: with a padding of one character, as process.go calls it, and a
    length that is not negative, [rightPad] never panics: a string of at
    most [pLen] bytes is followed by the padding character up to [pLen]
    bytes, a longer one is cut to its first [pLen] bytes. *)
Theorem rightPad_char (s : string) (c : ascii) (pLen : Z) :
  (0 <= pLen <= max_int)%Z ->
  rightPad s (String c "") pLen
  = Some (if (Z.of_nat (String.length s) <=? pLen)%Z
          then s ++ repeatString (String c "")
                      (Z.to_nat pLen - String.length s)
          else substring 0 (Z.to_nat pLen) s).
Proof.
  intros [H0 Hmax]. unfold rightPad, Repeat, sliceTo.
  destruct (Z.ltb_spec pLen 0) as [Hneg|_]; [lia|].
  simpl String.length.
  destruct (Z.gtb_spec (Z.of_nat 1 * pLen) max_int) as [Hov|_]; [lia|].
  rewrite length_append, length_repeatString. simpl String.length.
  destruct (Z.ltb_spec (Z.of_nat (String.length s + Z.to_nat pLen * 1)) pLen)
    as [Hshort|_]; [lia|].
  simpl orb. cbv iota. f_equal.
  destruct (Z.leb_spec (Z.of_nat (String.length s)) pLen) as [Hle|Hgt].
  - rewrite substring_append_r by lia. f_equal.
    apply substring_repeat_char. lia.
  - apply substring_append_l. lia.
Qed.

Lemma rightPad_char_witness :
  (0 <= 4 <= max_int)%Z
  /\ rightPad "suite.yml" " " 4 = Some "suit"
  /\ rightPad "s" " " 4 = Some "s   ".
Proof.
  assert (H : (0 <= 4 <= max_int)%Z) by (unfold max_int; lia).
  split; [exact H|]. split.
  - exact (rightPad_char "suite.yml" " " 4 H).
  - exact (rightPad_char "s" " " 4 H).
Defined.

End PadFacts.

(** ** More on the step, case and suite runners *)
Module RunnerFacts.
Import GoInt GoIntFacts StepFacts.

Section Runners.

Context {TestStep ResultMap World : Type}.
Variable getExecutorWrap : TestStep -> @resolved TestStep ResultMap World.
Variable applyChecks :
  @ExecutorResult ResultMap -> TestStep -> option StepAssertions ->
  bool * list Failure * list Failure.
Variable aliases : gmap string string.

Implicit Types (e : @executorWrap TestStep ResultMap World)
  (l : @Loop TestStep World) (tc : @TestCase TestStep)
  (ts : @TestSuite TestStep) (st : @St TestStep World) (step : TestStep).

Local Abbreviation attempt' := (attempt applyChecks aliases).
Local Abbreviation retryLoop' := (retryLoop applyChecks aliases).
Local Abbreviation runTestStep' := (runTestStep applyChecks aliases).
Local Abbreviation caseLoop' := (caseLoop getExecutorWrap applyChecks aliases).
Local Abbreviation runTestCase' :=
  (runTestCase getExecutorWrap applyChecks aliases).
Local Abbreviation suiteLoop' :=
  (suiteLoop getExecutorWrap applyChecks aliases).
Local Abbreviation runTestSuite' :=
  (runTestSuite getExecutorWrap applyChecks aliases).

(** [tc'] is [tc] with records appended, and nothing else changed. *)
Local Abbreviation extends tc tc' :=
  (tc_Name tc' = tc_Name tc /\ tc_TestSteps tc' = tc_TestSteps tc
   /\ tc_Skipped tc' = tc_Skipped tc
   /\ (exists X, tc_Failures tc' = tc_Failures tc ++ X)
   /\ (exists Y, tc_Errors tc' = tc_Errors tc ++ Y)).

Lemma extends_refl tc : extends tc tc.
Proof. repeat split; exists []; now rewrite app_nil_r. Qed.

Lemma extends_trans tc1 tc2 tc3 :
  extends tc1 tc2 -> extends tc2 tc3 -> extends tc1 tc3.
Proof.
  intros (N1 & S1 & K1 & [X1 F1] & [Y1 E1]) (N2 & S2 & K2 & [X2 F2] & [Y2 E2]).
  repeat split; try congruence.
  - exists (X1 ++ X2). rewrite F2, F1, app_assoc. reflexivity.
  - exists (Y1 ++ Y2). rewrite E2, E1, app_assoc. reflexivity.
Qed.

Lemma appendFailures_extends tc fs : extends tc (appendFailures tc fs).
Proof. repeat split; [exists fs | exists []; now rewrite app_nil_r]; reflexivity. Qed.

Lemma appendErrors_extends tc es : extends tc (appendErrors tc es).
Proof. repeat split; [exists []; now rewrite app_nil_r | exists es]; reflexivity. Qed.

Lemma attempt_extends e step l :
  extends (l_tc l) (l_tc (fst (attempt' e step l)))
  /\ exists evs, trace (l_st (fst (attempt' e step l))) = trace (l_st l) ++ evs.
Proof.
  unfold attempt, runTestStepExecutor.
  set (st1 := if _ && _ then _ else _).
  assert (Hst1 : exists evs, trace st1 = trace (l_st l) ++ evs).
  { unfold st1. destruct (_ && _); [eexists; reflexivity|].
    exists []. now rewrite app_nil_r. }
  destruct Hst1 as [evs Hevs].
  destruct (Run (executor e) aliases step (world st1)) as [a w].
  assert (Htr : exists evs', trace st1 ++ [EvRun step] = trace (l_st l) ++ evs').
  { exists (evs ++ [EvRun step]). rewrite Hevs, app_assoc. reflexivity. }
  destruct (selectReturn e a) as [result [msg|]]; cbn [fst l_tc l_st trace].
  - split; [apply appendFailures_extends | exact Htr].
  - destruct (applyChecks result step _) as [[[|] es] fs];
      cbn [fst l_tc l_st trace]; (split; [apply extends_refl | exact Htr]).
Qed.

Lemma retryLoop_extends e step n : forall l,
  extends (l_tc l) (l_tc (retryLoop' n e step l))
  /\ exists evs, trace (l_st (retryLoop' n e step l)) = trace (l_st l) ++ evs.
Proof.
  induction n as [|n IH]; intros l; cbn [retryLoop].
  - split; [apply extends_refl | exists []; now rewrite app_nil_r].
  - destruct (_ && _);
      [| split; [apply extends_refl | exists []; now rewrite app_nil_r]].
    pose proof (attempt_extends e step l) as [H1 [evs H2]].
    destruct (attempt' e step l) as [l1 [|]]; cbn [fst] in H1, H2.
    + split; [exact H1 | exists evs; exact H2].
    + destruct (IH l1) as [H3 [evs' H4]]. split.
      * eapply extends_trans; [exact H1 | exact H3].
      * exists (evs ++ evs'). rewrite H4, H2, app_assoc. reflexivity.
Qed.

Lemma runTestStep_extends e tc step st :
  extends tc (fst (runTestStep' e tc step st))
  /\ exists evs, trace (snd (runTestStep' e tc step st)) = trace st ++ evs.
Proof.
  unfold runTestStep. cbv zeta. cbn [fst snd].
  pose proof (retryLoop_extends e step (passes e)
                (mkLoop 0 false [] [] tc st)) as [H1 H2].
  cbn [l_tc l_st] in H1, H2. split; [|exact H2].
  eapply extends_trans; [exact H1|].
  eapply extends_trans; [apply appendErrors_extends|].
  eapply extends_trans; [apply appendFailures_extends|].
  destruct (_ && _); [apply appendFailures_extends | apply extends_refl].
Qed.

Lemma caseLoop_extends steps : forall tc st,
  extends tc (fst (caseLoop' steps tc st))
  /\ exists evs, trace (snd (caseLoop' steps tc st)) = trace st ++ evs.
Proof.
  induction steps as [|step rest IH]; intros tc st; cbn [caseLoop].
  - split; [apply extends_refl | exists []; now rewrite app_nil_r].
  - destruct (getExecutorWrap step) as [e|msg].
    + pose proof (runTestStep_extends e tc step st) as [H1 [evs H2]].
      destruct (runTestStep' e tc step st) as [tc1 st1]. cbn [fst snd] in H1, H2.
      destruct (_ >? 0); [split; [exact H1 | exists evs; exact H2]|].
      destruct (IH tc1 st1) as [H3 [evs' H4]]. split.
      * eapply extends_trans; [exact H1 | exact H3].
      * exists (evs ++ evs'). rewrite H4, H2, app_assoc. reflexivity.
    + split; [apply appendErrors_extends | exists []; now rewrite app_nil_r].
Qed.


(** What the suite runner adds to a counter for the cases [cases']. *)
Local Abbreviation counted g cases' n0 :=
  (fold_left
     (fun n (tc' : @TestCase TestStep) =>
        if g tc' >? 0 then add n (g tc') else n)
     cases' n0).

(** The loop over the cases, from the index [length pre] on: [cases'] is
    what the cases still to visit have become. *)
Lemma suiteLoop_shape cases : forall (pre : list (@TestCase TestStep)) ts st,
  ts_TestCases ts = pre ++ cases ->
  let ts' := fst (suiteLoop' (length pre) cases ts st) in
  let st' := snd (suiteLoop' (length pre) cases ts st) in
  exists cases',
    ts_TestCases ts' = pre ++ cases'
    /\ Forall2 (fun tc tc' => extends tc tc' /\ (tc_Skipped tc <> 0 -> tc' = tc))
         cases cases'
    /\ ts_Name ts' = ts_Name ts /\ ts_Package ts' = ts_Package ts
    /\ ts_Total ts' = ts_Total ts
    /\ ts_Failures ts'
       = counted (fun tc' => len (tc_Failures tc')) cases' (ts_Failures ts)
    /\ ts_Errors ts'
       = counted (fun tc' => len (tc_Errors tc')) cases' (ts_Errors ts)
    /\ (exists evs, trace st' = trace st ++ evs)
    /\ (Forall (fun tc => tc_Skipped tc <> 0) cases -> st' = st).
Proof.
  induction cases as [|tc rest IH]; intros pre ts st Hts; cbv zeta.
  - exists []. cbn [suiteLoop fst snd fold_left].
    repeat split; auto. exists []. now rewrite app_nil_r.
  - cbn [suiteLoop].
    assert (Hins : forall x,
      <[ length pre := x ]> (ts_TestCases ts) = (pre ++ [x]) ++ rest).
    { intros x. rewrite Hts, insert_app_r_alt by lia.
      rewrite Nat.sub_diag, <- app_assoc. reflexivity. }
    assert (Hlen : forall x : @TestCase TestStep,
      S (length pre) = length (pre ++ [x])).
    { intros x. rewrite length_app. simpl. lia. }
    destruct (tc_Skipped tc =? 0) eqn:Hz.
    + pose proof (caseLoop_extends (tc_TestSteps tc) tc st) as [Hext [evs Hevs]].
      fold (runTestCase' tc st) in Hext, Hevs.
      destruct (runTestCase' tc st) as [tc1 st1]. cbn [fst snd] in Hext, Hevs.
      set (ts1 := countCase tc1 _).
      rewrite (Hlen tc1).
      destruct (IH (pre ++ [tc1]) ts1 st1) as
        (cases' & Hc & Hall & HN & HP & HT & HF & HE & [evs' Htr] & Hsame).
      { unfold ts1. cbn [countCase setCounters setTestCases ts_TestCases].
        apply Hins. }
      exists (tc1 :: cases'). rewrite Hc, <- app_assoc.
      split; [reflexivity|]. split.
      { constructor; [|exact Hall]. split; [exact Hext|].
        apply Z.eqb_eq in Hz. congruence. }
      repeat split; try assumption.
      * exists (evs ++ evs'). rewrite Htr, Hevs, app_assoc. reflexivity.
      * intros Hsk. inversion Hsk; subst. apply Z.eqb_eq in Hz. congruence.
    + set (ts1 := countCase tc ts).
      rewrite (Hlen tc).
      destruct (IH (pre ++ [tc]) ts1 st) as
        (cases' & Hc & Hall & HN & HP & HT & HF & HE & Htr & Hsame).
      { unfold ts1. cbn [countCase setCounters ts_TestCases].
        rewrite Hts, <- app_assoc. reflexivity. }
      exists (tc :: cases'). rewrite Hc, <- app_assoc.
      split; [reflexivity|]. split.
      { constructor; [|exact Hall]. split; [apply extends_refl | reflexivity]. }
      repeat split; try assumption.
      intros Hsk. inversion Hsk; subst. apply Hsame. assumption.
Qed.

Lemma counted_sum (g : @TestCase TestStep -> Z) cases' : forall n0,
  (forall tc', 0 <= g tc') -> in_range n0 ->
  counted g cases' n0 = wrap (n0 + fold_right Z.add 0 (map g cases')).
Proof.
  induction cases' as [|tc' rest IH]; intros n0 Hg Hn; cbn [fold_left map fold_right].
  - rewrite Z.add_0_r, wrap_id; auto.
  - destruct (Z.gtb_spec (g tc') 0) as [Hpos|Hzero].
    + rewrite IH; [|exact Hg|apply wrap_in_range].
      unfold add. rewrite wrap_add_l. f_equal. lia.
    + rewrite IH; [|exact Hg|exact Hn].
      specialize (Hg tc'). f_equal. lia.
Qed.

(** X6: the suite runner keeps the shape of the suite.  Name, package,
    [Total] and the number of cases are unchanged; every case keeps its
    name, its steps, its skip mark and the records it had, to which
    records are only appended; and a case whose [Skipped] is not 0 is left
    exactly as it was. *)
Theorem runTestSuite_shape ts st :
  let ts' := fst (runTestSuite getExecutorWrap applyChecks aliases ts st) in
  ts_Name ts' = ts_Name ts /\ ts_Package ts' = ts_Package ts
  /\ ts_Total ts' = ts_Total ts
  /\ Forall2 (fun tc tc' =>
                tc_Name tc' = tc_Name tc /\ tc_TestSteps tc' = tc_TestSteps tc
                /\ tc_Skipped tc' = tc_Skipped tc
                /\ (exists X, tc_Failures tc' = tc_Failures tc ++ X)
                /\ (exists Y, tc_Errors tc' = tc_Errors tc ++ Y)
                /\ (tc_Skipped tc <> 0 -> tc' = tc))
       (ts_TestCases ts) (ts_TestCases ts').
Proof.
  destruct (suiteLoop_shape (ts_TestCases ts) [] ts st eq_refl)
    as (cases' & Hc & Hall & HN & HP & HT & _).
  cbv zeta. unfold runTestSuite. cbn [length app] in *.
  rewrite Hc. repeat (split; [assumption|]).
  eapply Forall2_impl; [exact Hall|].
  intros tc tc' [(H1 & H2 & H3 & H4 & H5) H6]. repeat split; assumption.
Qed.

(** X7: when the suite runner is done, the [Failures] counter of the suite
    has grown by the number of Failure records its cases now hold, and the
    [Errors] counter by the number of their Error records (in int
    arithmetic); the records that skipped cases carried are counted too. *)
Theorem runTestSuite_counters ts st :
  in_range (ts_Failures ts) -> in_range (ts_Errors ts) ->
  let ts' := fst (runTestSuite' ts st) in
  ts_Failures ts'
  = wrap (ts_Failures ts
          + fold_right Z.add 0
              (map (fun tc' => len (tc_Failures tc')) (ts_TestCases ts')))
  /\ ts_Errors ts'
     = wrap (ts_Errors ts
             + fold_right Z.add 0
                 (map (fun tc' => len (tc_Errors tc')) (ts_TestCases ts'))).
Proof.
  intros HF0 HE0.
  destruct (suiteLoop_shape (ts_TestCases ts) [] ts st eq_refl)
    as (cases' & Hc & _ & _ & _ & _ & HF & HE & _).
  cbv zeta. unfold runTestSuite. cbn [length app] in *.
  rewrite Hc, HF, HE. split; apply counted_sum; auto; intros; apply len_nonneg.
Qed.

(** X8: a suite whose cases are all marked ([Skipped] not 0) runs
    nothing: no executor is called, nothing sleeps, and the cases are
    handed on as they were. *)
Theorem runTestSuite_all_skipped ts st :
  Forall (fun tc => tc_Skipped tc <> 0) (ts_TestCases ts) ->
  snd (runTestSuite getExecutorWrap applyChecks aliases ts st) = st
  /\ ts_TestCases (fst (runTestSuite getExecutorWrap applyChecks aliases ts st)) = ts_TestCases ts.
Proof.
  intros Hall.
  destruct (suiteLoop_shape (ts_TestCases ts) [] ts st eq_refl)
    as (cases' & Hc & H2 & _ & _ & _ & _ & _ & _ & Hst).
  unfold runTestSuite. cbn [length app] in *.
  split; [apply Hst, Hall|]. rewrite Hc.
  clear Hc Hst. induction H2 as [|tc tc' l l' [_ Heq] _ IH]; [reflexivity|].
  inversion Hall; subst. rewrite Heq, IH by assumption. reflexivity.
Qed.


(** X9: a binding with a negative [retry] makes no attempt at all: the
    executor is not called and the step leaves no record, so the step
    counts as passed without having run. *)
Theorem runTestStep_negative_retry e tc step st :
  retry e < 0 ->
  snd (runTestStep' e tc step st) = st
  /\ tc_Failures (fst (runTestStep' e tc step st)) = tc_Failures tc
  /\ tc_Errors (fst (runTestStep' e tc step st)) = tc_Errors tc.
Proof.
  intros Hneg. unfold runTestStep, passes.
  replace (Z.to_nat (retry e + 1)) with O by lia.
  cbn. rewrite !app_nil_r. repeat split.
Qed.

(** The loop when every call fails with the error [msg] (a timeout is
    one such error). *)
Lemma retryLoop_all_fail e step msg :
  retry e < max_int ->
  (forall w, snd (selectReturn e (fst (Run (executor e) aliases step w)))
             = Some msg) ->
  forall (n : nat) l,
    l_isOK l = false -> 0 <= l_retry l ->
    l_retry l + Z.of_nat n = retry e + 1 ->
    let l' := retryLoop' n e step l in
    tc_Failures (l_tc l') = tc_Failures (l_tc l) ++ repeat (mkFailure msg) n
    /\ tc_Errors (l_tc l') = tc_Errors (l_tc l)
    /\ l_errors l' = l_errors l /\ l_failures l' = l_failures l
    /\ l_retry l' = l_retry l + Z.of_nat n.
Proof.
  intros Hmax Hfail. induction n as [|n IH]; intros l Hok H0 Hn; cbv zeta;
    cbn [retryLoop].
  - cbn [repeat]. rewrite app_nil_r. repeat split. lia.
  - assert (Hle : (l_retry l <=? retry e) = true) by (apply Z.leb_le; lia).
    rewrite Hle, Hok. cbn [negb andb].
    specialize (Hfail (world (l_st l))).
    destruct (Run (executor e) aliases step (world (l_st l))) as [a w] eqn:Hrun.
    cbn [fst] in Hfail.
    rewrite (attempt_eq applyChecks aliases e step l a w Hrun Hok).
    cbv zeta. rewrite Hfail.
    rewrite incr_small by (unfold min_int; lia).
    set (l1 := mkLoop _ _ _ _ _ _).
    destruct (IH l1) as (H1 & H2 & H3 & H4 & H5);
      [reflexivity | cbn; lia | cbn; lia |].
    cbn [l_tc l_errors l_failures l_retry l1 appendFailures tc_Failures
         tc_Errors] in *.
    rewrite H1, H2, H3, H4, H5, <- app_assoc. cbn [repeat app].
    repeat split. lia.
Qed.

(** X10: when every call of the executor fails with the same error, or
    every attempt runs into the deadline, the step leaves exactly
    [retry + 1] Failure records with that message, no Error record, and no
    Failure that notes the number of attempts. *)
Theorem runTestStep_all_calls_fail e tc step st msg :
  0 <= retry e < max_int ->
  (forall w, snd (selectReturn e (fst (Run (executor e) aliases step w)))
             = Some msg) ->
  tc_Failures (fst (runTestStep' e tc step st))
  = tc_Failures tc ++ repeat (mkFailure msg) (Z.to_nat (retry e + 1))
  /\ tc_Errors (fst (runTestStep' e tc step st)) = tc_Errors tc.
Proof.
  intros [H0 Hmax] Hfail.
  pose proof (retryLoop_all_fail e step msg Hmax Hfail (passes e)
                (mkLoop 0 false [] [] tc st) eq_refl) as H.
  cbv zeta in H. cbn [l_retry l_tc l_errors l_failures] in H.
  destruct H as (H1 & H2 & H3 & H4 & H5); [lia | unfold passes; lia |].
  unfold runTestStep. cbv zeta. cbn [fst].
  fold (passes e). rewrite H3, H4. cbn [len length]. rewrite andb_false_r.
  cbn [appendFailures appendErrors tc_Failures tc_Errors].
  rewrite !app_nil_r. split; assumption.
Qed.

Lemma runTestStep_passes_at_once e tc step st result w es fs :
  0 <= retry e ->
  Run (executor e) aliases step (world st) = (Returned result None, w) ->
  applyChecks None step (GetDefaultAssertions (executor e)) = (true, es, fs) ->
  runTestStep' e tc step st
  = (appendFailures (appendErrors tc es) fs,
     {| world := w; trace := trace st ++ [EvRun step] |}).
Proof.
  intros H0 Hrun Hchk. unfold runTestStep, passes.
  destruct (Z.to_nat (retry e + 1)) as [|n] eqn:Hn; [lia|].
  cbn [retryLoop l_retry l_isOK negb].
  assert (Hle : (0 <=? retry e) = true) by (apply Z.leb_le; lia).
  rewrite Hle. cbn [andb].
  rewrite (attempt_eq applyChecks aliases e step
             (mkLoop 0 false [] [] tc st) (Returned result None) w Hrun eq_refl).
  cbv zeta. cbn [selectReturn snd]. rewrite Hchk.
  cbn [l_retry l_tc l_errors l_failures l_st]. reflexivity.
Qed.

(** X11: when the first call returns without error and the evaluator
    answers OK, the step is over after that one call: no sleep, no second
    call, and the case receives what the evaluator returned and no Failure
    that notes the attempts. *)
Theorem runTestStep_first_attempt_passes e tc step st result w es fs :
  0 <= retry e ->
  Run (executor e) aliases step (world st) = (Returned result None, w) ->
  applyChecks None step (GetDefaultAssertions (executor e)) = (true, es, fs) ->
  runTestStep' e tc step st
  = (appendFailures (appendErrors tc es) fs,
     {| world := w; trace := trace st ++ [EvRun step] |}).
Proof. apply runTestStep_passes_at_once. Qed.

(** X12: a case whose steps all resolve to a binding with [retry >= 0],
    whose calls return without error and whose checks pass without a
    record, runs every step exactly once, in file order and without a
    sleep, and ends without a Failure and with the Errors it started
    with. *)
Theorem runTestCase_all_pass steps : forall tc st,
  Forall (fun step =>
            exists e,
              getExecutorWrap step = Ok e /\ 0 <= retry e
              /\ (forall w, exists result w',
                    Run (executor e) aliases step w
                    = (Returned result None, w'))
              /\ applyChecks None step (GetDefaultAssertions (executor e))
                 = (true, [], []))
         steps ->
  tc_Failures tc = [] ->
  trace (snd (caseLoop' steps tc st)) = trace st ++ map EvRun steps
  /\ tc_Failures (fst (caseLoop' steps tc st)) = []
  /\ tc_Errors (fst (caseLoop' steps tc st)) = tc_Errors tc.
Proof.
  induction steps as [|step rest IH]; intros tc st Hall Hnil; cbn [caseLoop].
  - cbn. rewrite app_nil_r. repeat split. exact Hnil.
  - inversion Hall as [|? ? (e & He & H0 & Hrun & Hchk) Hrest]; subst.
    rewrite He. destruct (Hrun (world st)) as (result & w & Hw).
    rewrite (runTestStep_passes_at_once e tc step st result w [] []
               H0 Hw Hchk).
    set (tc1 := appendFailures (appendErrors tc []) []).
    set (st1 := mkSt w _).
    assert (Hnil1 : tc_Failures tc1 = [])
      by (unfold tc1; cbn; rewrite Hnil; reflexivity).
    assert (Herr1 : tc_Errors tc1 = tc_Errors tc)
      by (unfold tc1; cbn; apply app_nil_r).
    cbv beta iota zeta. rewrite Hnil1.
    change (len (@nil Failure) >? 0) with false. cbv iota.
    destruct (IH tc1 st1 Hrest Hnil1) as (H1 & H2 & H3).
    rewrite H1, H2, H3, Herr1. unfold st1. cbn [trace map].
    rewrite <- app_assoc. repeat split.
Qed.

End Runners.
End RunnerFacts.

(** ** More on the collector and on the race *)
Module AggregateFacts.
Import GoInt GoIntFacts.

Section Aggregate.

Context {TestStep : Type}.
Implicit Types (tr : @Tests TestStep) (t : @TestSuite TestStep)
  (done : list (@TestSuite TestStep)).

(** What a suite adds to each of the three counters. *)
Local Abbreviation addsKO t := (if ts_Failures t >? 0 then ts_Failures t else 0).
Local Abbreviation addsOK t :=
  (if ts_Failures t >? 0 then 0 else len (ts_TestCases t) - ts_Failures t).
Local Abbreviation addsSkipped t :=
  (if ts_Skipped t >? 0 then ts_Skipped t else 0).
Local Abbreviation total f done := (fold_right Z.add 0 (map f done)).

Lemma fold_collect done : forall tr,
  in_range (tr_TotalKO tr) -> in_range (tr_TotalOK tr) ->
  in_range (tr_TotalSkipped tr) ->
  let tr' := fold_left collect done tr in
  tr_TotalKO tr' = wrap (tr_TotalKO tr + total (fun t => addsKO t) done)
  /\ tr_TotalOK tr' = wrap (tr_TotalOK tr + total (fun t => addsOK t) done)
  /\ tr_TotalSkipped tr'
     = wrap (tr_TotalSkipped tr + total (fun t => addsSkipped t) done)
  /\ tr_TestSuites tr' = tr_TestSuites tr ++ done.
Proof.
  induction done as [|t done IH]; intros tr HKO HOK HSK; cbv zeta;
    cbn [fold_left map fold_right].
  - rewrite !Z.add_0_r, !wrap_id, app_nil_r by assumption. repeat split.
  - destruct (IH (collect tr t)) as (H1 & H2 & H3 & H4).
    + cbn. destruct (_ >? 0); [apply wrap_in_range | exact HKO].
    + cbn. destruct (_ >? 0); [exact HOK | apply wrap_in_range].
    + cbn. destruct (ts_Skipped t >? 0); [apply wrap_in_range | exact HSK].
    + rewrite H1, H2, H3, H4. cbn [collect tr_TotalKO tr_TotalOK
        tr_TotalSkipped tr_TestSuites]. unfold add, sub.
      repeat split.
      * destruct (ts_Failures t >? 0); [rewrite wrap_add_l|]; f_equal; lia.
      * destruct (ts_Failures t >? 0); [f_equal; lia|].
        rewrite wrap_add_l, (Z.add_comm (tr_TotalOK tr)), <- Z.add_assoc,
          wrap_add_l. f_equal. lia.
      * destruct (ts_Skipped t >? 0); [rewrite wrap_add_l|]; f_equal; lia.
      * rewrite <- app_assoc. reflexivity.
Qed.

Lemma total_Permutation (f : @TestSuite TestStep -> Z) done done' :
  Permutation done done' -> total f done = total f done'.
Proof.
  induction 1 as [|t l l' _ IH|t u l|l l' l'' _ IH1 _ IH2]; cbn [map fold_right].
  - reflexivity.
  - now rewrite IH.
  - lia.
  - now rewrite IH1.
Qed.

Lemma collectAll_sums done :
  tr_TestSuites (collectAll done) = done
  /\ tr_TotalKO (collectAll done) = wrap (total (fun t => addsKO t) done)
  /\ tr_TotalOK (collectAll done) = wrap (total (fun t => addsOK t) done)
  /\ tr_TotalSkipped (collectAll done)
     = wrap (total (fun t => addsSkipped t) done).
Proof.
  unfold collectAll.
  destruct (fold_collect done noTests) as (H1 & H2 & H3 & H4);
    try (cbn; unfold in_range, min_int, max_int; lia).
  cbn in H1, H2, H3, H4. repeat split; assumption.
Qed.

(** X13: the collector keeps every suite it receives, in the order of
    arrival, and each counter is the sum (in int arithmetic) of what the
    suites add to it: [Failures] of the suites that have some to
    [TotalKO], the case count (less a [Failures] below 0) of the others to
    [TotalOK], and the positive [Skipped] to [TotalSkipped]. *)
Theorem collectAll_counters done :
  tr_TestSuites (collectAll done) = done
  /\ tr_TotalKO (collectAll done)
     = wrap (fold_right Z.add 0
               (map (fun t => if ts_Failures t >? 0 then ts_Failures t else 0)
                    done))
  /\ tr_TotalOK (collectAll done)
     = wrap (fold_right Z.add 0
               (map (fun t => if ts_Failures t >? 0 then 0
                              else len (ts_TestCases t) - ts_Failures t)
                    done))
  /\ tr_TotalSkipped (collectAll done)
     = wrap (fold_right Z.add 0
               (map (fun t => if ts_Skipped t >? 0 then ts_Skipped t else 0)
                    done)).
Proof. apply collectAll_sums. Qed.

(** X14: the totals do not depend on the order in which the suites reach
    the collector. *)
Theorem collectAll_order done done' :
  Permutation done done' ->
  tr_TotalOK (collectAll done) = tr_TotalOK (collectAll done')
  /\ tr_TotalKO (collectAll done) = tr_TotalKO (collectAll done')
  /\ tr_TotalSkipped (collectAll done) = tr_TotalSkipped (collectAll done')
  /\ tr_Total (collectAll done) = tr_Total (collectAll done').
Proof.
  intros Hp.
  destruct (collectAll_sums done) as (_ & K1 & O1 & S1).
  destruct (collectAll_sums done') as (_ & K2 & O2 & S2).
  pose proof (CollectorFacts.fold_collect_Total done noTests eq_refl) as T1.
  pose proof (CollectorFacts.fold_collect_Total done' noTests eq_refl) as T2.
  cbv zeta in T1, T2. fold (collectAll done) in T1. fold (collectAll done') in T2.
  assert (HO : tr_TotalOK (collectAll done) = tr_TotalOK (collectAll done'))
    by (rewrite O1, O2; f_equal; apply total_Permutation, Hp).
  assert (HK : tr_TotalKO (collectAll done) = tr_TotalKO (collectAll done'))
    by (rewrite K1, K2; f_equal; apply total_Permutation, Hp).
  assert (HS : tr_TotalSkipped (collectAll done)
               = tr_TotalSkipped (collectAll done'))
    by (rewrite S1, S2; f_equal; apply total_Permutation, Hp).
  repeat split; try assumption.
  rewrite T1, T2, HO, HK, HS. reflexivity.
Qed.

(** X15: when no collected suite has a Failure record or a positive
    [Skipped], [Total] and [TotalOK] are both the number of cases of the
    collected suites, and [TotalKO] and [TotalSkipped] are 0. *)
Theorem collectAll_all_green done :
  Forall (fun t => ts_Failures t = 0 /\ ts_Skipped t <= 0) done ->
  let n := fold_right Z.add 0 (map (fun t => len (ts_TestCases t)) done) in
  tr_TotalOK (collectAll done) = wrap n
  /\ tr_TotalKO (collectAll done) = 0
  /\ tr_TotalSkipped (collectAll done) = 0
  /\ tr_Total (collectAll done) = wrap n.
Proof.
  intros Hall n.
  destruct (collectAll_sums done) as (_ & K & O & S).
  pose proof (CollectorFacts.fold_collect_Total done noTests eq_refl) as T.
  cbv zeta in T. fold (collectAll done) in T.
  assert (HK : total (fun t => addsKO t) done = 0).
  { clear -Hall. induction Hall as [|t l [Hf _] _ IH]; [reflexivity|].
    cbn [map fold_right]. rewrite IH, Hf. reflexivity. }
  assert (HS : total (fun t => addsSkipped t) done = 0).
  { clear -Hall. induction Hall as [|t l [_ Hs] _ IH]; [reflexivity|].
    cbn [map fold_right]. rewrite IH.
    destruct (Z.gtb_spec (ts_Skipped t) 0); lia. }
  assert (HO : total (fun t => addsOK t) done = n).
  { unfold n. clear -Hall. induction Hall as [|t l [Hf _] _ IH]; [reflexivity|].
    cbn [map fold_right]. rewrite IH, Hf. cbn. lia. }
  rewrite HK in K. rewrite HS in S. rewrite HO in O.
  change (wrap 0) with 0 in K, S.
  repeat split; try assumption.
  rewrite T, K, S, O. unfold add.
  rewrite Z.add_0_l, Z.add_0_r, !wrap_wrap. reflexivity.
Qed.

End Aggregate.

Import Race RaceFacts.

(** X16: the goroutine started by [runTestStepExecutor] never runs to its
    end.  Once [Run] has returned it stays blocked on a channel send: on
    [cherr <- err] when the caller left on the deadline, on
    [ch <- result] when the caller received the error. *)
Theorem goroutine_never_finishes
  (R : Type) (run_result : option R) (run_err : error) (timeout_err : string)
  (k : config R) :
  reachable R run_result run_err timeout_err k -> g R k <> Finished.
Proof.
  induction 1 as [|k k' Hr IH Hs]; [discriminate|].
  apply reachable_inv in Hr. unfold inv in Hr.
  destruct Hs; cbn [g c] in *; try discriminate; try exact IH.
  destruct Hr; discriminate.
Qed.

Lemma goroutine_never_finishes_witness :
  g Mock.Result (mkConfig Mock.Result SendResult (Return Mock.Result None None) false)
  <> Finished.
Proof.
  exact (goroutine_never_finishes Mock.Result
           (Some {[ "result.statusCode" := 200 ]}) None
           "Timeout after 1 second(s)" _ (cherr_reachable _ _ _ _)).
Defined.

End AggregateFacts.

(** ** executors/http: the request that getRequest builds *)
Module HttpFacts.
Import Http.

Section GetRequestFacts.

Variable file : string -> FileAccess.
Variable Base : string -> string.
Variable newRequestError : string -> string -> error.
Variable formDataContentType : string.

Local Abbreviation writeForm' := (writeForm file Base).
Local Abbreviation getRequest' :=
  (getRequest file Base newRequestError formDataContentType).

(** The part that a form entry is written as. *)
Local Abbreviation written kv p :=
  (exists key v,
     kv = (EString key, EString v)
     /\ ((String.prefix "@" v = true
          /\ exists bytes,
               file (dropFirst v) = Content bytes
               /\ p = FormFile key (Base (dropFirst v)) bytes)
         \/ ((String.prefix "@" v = false \/ file (dropFirst v) = NotExist)
             /\ p = FormField key v))).

(** X17: when the form is written without error, the writer has received
    one part per entry, in the order of the entries: a file part, named
    by the base name, for a value [@name] whose file is read; and a plain
    field in every other case, also for a value [@name] whose file does
    not exist, which goes out with its [@]. *)
Theorem writeForm_parts form : forall acc parts,
  writeForm file Base form acc = inl parts ->
  exists new, parts = acc ++ new /\ Forall2 (fun kv p => written kv p) form new.
Proof.
  induction form as [|[keyf valuef] rest IH]; intros acc parts H; cbn in H.
  - injection H as <-. exists []. rewrite app_nil_r. split; constructor.
  - destruct keyf as [key|]; [|discriminate].
    destruct valuef as [v|]; [|discriminate].
    destruct (String.prefix "@" v) eqn:Hp.
    + destruct (file (dropFirst v)) as [|msg|bytes] eqn:Hf; [|discriminate|].
      * destruct (IH _ _ H) as (new & -> & Hall).
        exists (FormField key v :: new). rewrite <- app_assoc.
        split; [reflexivity|]. constructor; [|exact Hall].
        exists key, v. split; [reflexivity|]. right.
        split; [right; exact Hf|reflexivity].
      * destruct (IH _ _ H) as (new & -> & Hall).
        exists (FormFile key (Base (dropFirst v)) bytes :: new).
        rewrite <- app_assoc. split; [reflexivity|].
        constructor; [|exact Hall].
        exists key, v. split; [reflexivity|]. left. split; [exact Hp|].
        exists bytes. split; [exact Hf | reflexivity].
    + destruct (IH _ _ H) as (new & -> & Hall).
      exists (FormField key v :: new). rewrite <- app_assoc.
      split; [reflexivity|]. constructor; [|exact Hall].
      exists key, v. split; [reflexivity|]. right.
      split; [left; exact Hp|reflexivity].
Qed.

Lemma writeForm_rejects form : forall acc,
  Exists (fun kv => forall key v, kv <> (EString key, EString v)) form ->
  exists msg, writeForm' form acc = inr msg.
Proof.
  induction form as [|[keyf valuef] rest IH]; intros acc H;
    inversion H as [? ? Hbad|? ? Hrest]; subst; cbn.
  - destruct keyf as [key|]; [|eauto].
    destruct valuef as [v|]; [|eauto]. exfalso. apply (Hbad key v). reflexivity.
  - destruct keyf as [key|]; [|eauto].
    destruct valuef as [v|]; [|eauto].
    destruct (String.prefix "@" v); [destruct (file (dropFirst v))|];
      eauto.
Qed.

(** X18: the request that [getRequest] returns has the method of the
    step, or [GET] when the step names none, and the URL followed by the
    path.  Without a form its body is [e.Body] and no header is set; with
    a form, which excludes a body, it carries the parts of the form and
    the [Content-Type] of the writer is its only header. *)
Theorem getRequest_request e req :
  getRequest file Base newRequestError formDataContentType e = inl req ->
  r_Method req = (if String.eqb (Method e) "" then "GET" else Method e)
  /\ r_URL req = (URL e ++ Path e)%string
  /\ newRequestError (r_Method req) (r_URL req) = None
  /\ match MultipartForm e with
     | VNil => r_Body req = Buffer (Body e) /\ r_Header req = ∅
     | VMap form =>
         Body e = ""
         /\ exists parts,
              writeForm file Base form [] = inl parts
              /\ r_Body req = Multipart parts
              /\ r_Header req = {[ "Content-Type" := formDataContentType ]}
     | VOther => False
     end.
Proof.
  unfold getRequest. intros H.
  destruct (String.eqb_spec (Body e) "") as [Hb|Hb]; cbn [negb andb] in H.
  - destruct (MultipartForm e) as [|form|]; [| |discriminate].
    + destruct (newRequestError _ _) eqn:Hn; [discriminate|].
      injection H as <-. cbn. rewrite Hb. repeat split. exact Hn.
    + destruct (writeForm' form []) as [parts|msg] eqn:Hw; [|discriminate].
      destruct (newRequestError _ _) eqn:Hn; [discriminate|].
      injection H as <-. cbn. repeat split; [exact Hn | exact Hb |].
      exists parts. repeat split.
  - destruct (MultipartForm e) as [|form|]; cbn [isNil negb] in H;
      try discriminate.
    destruct (newRequestError _ _) eqn:Hn; [discriminate|].
    injection H as <-. cbn. repeat split. exact Hn.
Qed.

(** X19: [getRequest] returns an error, and no request, when the step has
    both a body and a form, when the form is not a map, and when some key
    or some value of the form is not a string. *)
Theorem getRequest_rejects e :
  (Body e <> "" -> MultipartForm e <> VNil ->
   getRequest file Base newRequestError formDataContentType e
   = inr "Cannot use both 'body' and 'multipart_form'")
  /\ (Body e = "" -> MultipartForm e = VOther ->
      getRequest' e = inr "'multipart_form' should be a map")
  /\ (forall form,
        Body e = "" -> MultipartForm e = VMap form ->
        Exists (fun kv => forall key v, kv <> (EString key, EString v)) form ->
        exists msg, getRequest' e = inr msg).
Proof.
  unfold getRequest. repeat split.
  - intros Hb Hf. destruct (String.eqb_spec (Body e) ""); [contradiction|].
    destruct (MultipartForm e); [contradiction| |]; reflexivity.
  - intros Hb Hf. rewrite Hb, Hf. reflexivity.
  - intros form Hb Hf Hbad. rewrite Hb, Hf. cbn.
    destruct (writeForm_rejects form [] Hbad) as [msg ->]. eauto.
Qed.

End GetRequestFacts.

(** A step that posts a form with a field and two files, of which the
    second does not exist. *)
Local Abbreviation disk :=
  (fun name : string =>
     if String.eqb name "/tmp/logo.png" then Content "PNG" else NotExist).
Local Abbreviation upload :=
  [(EString "name", EString "venom");
   (EString "logo", EString "@/tmp/logo.png");
   (EString "note", EString "@/tmp/missing")].
Local Abbreviation post :=
  {| Method := ""; URL := "http://example.com"; Path := "/upload";
     Body := ""; MultipartForm := VMap upload |}.

Lemma writeForm_parts_witness :
  writeForm disk (fun _ => "logo.png") upload []
  = inl [FormField "name" "venom"; FormFile "logo" "logo.png" "PNG";
         FormField "note" "@/tmp/missing"]
  /\ exists new : list part,
       [FormField "name" "venom"; FormFile "logo" "logo.png" "PNG";
        FormField "note" "@/tmp/missing"] = [] ++ new.
Proof.
  split; [reflexivity|].
  destruct (writeForm_parts disk (fun _ => "logo.png") upload [] _ eq_refl)
    as (new & H & _).
  exists new. exact H.
Defined.

Lemma getRequest_request_witness :
  let req := {| r_Method := "GET"; r_URL := "http://example.com/upload";
                r_Body := Multipart
                            [FormField "name" "venom";
                             FormFile "logo" "logo.png" "PNG";
                             FormField "note" "@/tmp/missing"];
                r_Header := {[ "Content-Type" := "multipart/form-data" ]} |} in
  getRequest disk (fun _ => "logo.png") (fun _ _ => None)
    "multipart/form-data" post = inl req
  /\ r_Method req = "GET"
  /\ r_URL req = "http://example.com/upload".
Proof.
  split; [reflexivity|].
  destruct (getRequest_request disk (fun _ => "logo.png") (fun _ _ => None)
              "multipart/form-data" post _ eq_refl) as (H1 & H2 & _).
  split; [exact H1 | exact H2].
Defined.

Lemma getRequest_rejects_witness :
  let e := {| Method := "POST"; URL := "http://example.com"; Path := "";
              Body := "{}"; MultipartForm := VMap upload |} in
  Body e <> "" /\ MultipartForm e <> VNil
  /\ getRequest disk (fun _ => "logo.png") (fun _ _ => None)
       "multipart/form-data" e
     = inr "Cannot use both 'body' and 'multipart_form'".
Proof.
  split; [discriminate|]. split; [discriminate|].
  apply (proj1 (getRequest_rejects disk (fun _ => "logo.png")
                  (fun _ _ => None) "multipart/form-data"
                  {| Method := "POST"; URL := "http://example.com"; Path := "";
                     Body := "{}"; MultipartForm := VMap upload |}));
    discriminate.
Defined.

End HttpFacts.

(** ** More runs on the mock executors *)
Module MoreExamples.
Import GoInt GoIntFacts.

Local Abbreviation tc0 := (Mock.case "case" [] 0).
Local Abbreviation three :=
  (Mock.suite "suite"
     [Mock.case "a" [Mock.step "ok200" 0 (Some 200)] 0;
      Mock.case "b" [Mock.step "refused" 0 None] 1;
      Mock.case "c" [Mock.step "refused" 1 None] 0]).

Lemma runTestSuite_shape_witness :
  let ts' := fst (Mock.runTestSuite three Mock.st0) in
  ts_Name ts' = "suite" /\ ts_Total ts' = 0
  /\ ts_TestCases ts' !! 1%nat = Some (Mock.case "b" [Mock.step "refused" 0 None] 1).
Proof.
  destruct (RunnerFacts.runTestSuite_shape Mock.getExecutorWrap
              Mock.applyChecks Mock.aliases three Mock.st0)
    as (H1 & _ & H3 & _).
  split; [exact H1|]. split; [exact H3 | reflexivity].
Defined.

Lemma runTestSuite_counters_witness :
  let ts' := fst (Mock.runTestSuite three Mock.st0) in
  in_range (ts_Failures three) /\ in_range (ts_Errors three)
  /\ ts_Failures ts'
     = wrap (0 + fold_right Z.add 0
                   (map (fun tc' => len (tc_Failures tc')) (ts_TestCases ts')))
  /\ ts_Failures ts' = 3.
Proof.
  assert (H : in_range 0) by (unfold in_range, min_int, max_int; lia).
  split; [exact H|]. split; [exact H|].
  split; [|reflexivity].
  exact (proj1 (RunnerFacts.runTestSuite_counters Mock.getExecutorWrap
                  Mock.applyChecks Mock.aliases three Mock.st0 H H)).
Defined.

Lemma runTestSuite_all_skipped_witness :
  let ts := Mock.suite "suite"
              [Mock.case "a" [Mock.step "refused" 0 None] 1;
               Mock.case "b" [Mock.step "stuck" 0 None] 1] in
  Forall (fun tc => tc_Skipped tc <> 0) (ts_TestCases ts)
  /\ snd (Mock.runTestSuite ts Mock.st0) = Mock.st0.
Proof.
  assert (H : Forall (fun tc : @TestCase Mock.Step => tc_Skipped tc <> 0)
                [Mock.case "a" [Mock.step "refused" 0 None] 1;
                 Mock.case "b" [Mock.step "stuck" 0 None] 1])
    by (repeat constructor; discriminate).
  split; [exact H|].
  exact (proj1 (RunnerFacts.runTestSuite_all_skipped Mock.getExecutorWrap
                  Mock.applyChecks Mock.aliases
                  (Mock.suite "suite"
                     [Mock.case "a" [Mock.step "refused" 0 None] 1;
                      Mock.case "b" [Mock.step "stuck" 0 None] 1])
                  Mock.st0 H)).
Defined.

Lemma runTestStep_negative_retry_witness :
  let e := {| executor := Mock.refused; retry := -1; delay := 0;
              timeout := 1 |} in
  let s := Mock.step "refused" (-1) None in
  retry e < 0 /\ snd (Mock.runTestStep e tc0 s Mock.st0) = Mock.st0.
Proof.
  split; [reflexivity|].
  exact (proj1 (RunnerFacts.runTestStep_negative_retry
                  Mock.applyChecks Mock.aliases
                  {| executor := Mock.refused; retry := -1; delay := 0;
                     timeout := 1 |}
                  tc0 (Mock.step "refused" (-1) None) Mock.st0 eq_refl)).
Defined.

Lemma runTestStep_all_calls_fail_witness :
  let s := Mock.step "stuck" 2 None in
  0 <= retry (Mock.binding s) < max_int
  /\ tc_Failures (fst (Mock.runTestStep (Mock.binding s) tc0 s Mock.st0))
     = [] ++ repeat (mkFailure "Timeout after 1 second(s)") 3.
Proof.
  assert (H : 0 <= retry (Mock.binding (Mock.step "stuck" 2 None)) < max_int)
    by (vm_compute; split; congruence).
  split; [exact H|].
  exact (proj1 (RunnerFacts.runTestStep_all_calls_fail
                  Mock.applyChecks Mock.aliases
                  (Mock.binding (Mock.step "stuck" 2 None)) tc0
                  (Mock.step "stuck" 2 None) Mock.st0
                  "Timeout after 1 second(s)" H (fun w => eq_refl))).
Defined.

Lemma runTestStep_first_attempt_passes_witness :
  let s := Mock.step "ok200" 3 None in
  0 <= retry (Mock.binding s)
  /\ Mock.runTestStep (Mock.binding s) tc0 s Mock.st0
     = (appendFailures (appendErrors tc0 []) [],
        {| world := 1%nat; trace := [] ++ [EvRun s] |}).
Proof.
  assert (H : 0 <= retry (Mock.binding (Mock.step "ok200" 3 None)))
    by (vm_compute; congruence).
  split; [exact H|].
  exact (RunnerFacts.runTestStep_first_attempt_passes
           Mock.applyChecks Mock.aliases
           (Mock.binding (Mock.step "ok200" 3 None)) tc0
           (Mock.step "ok200" 3 None) Mock.st0
           (Some {[ "result.statusCode" := 200 ]}) 1%nat [] []
           H eq_refl eq_refl).
Defined.

Lemma runTestCase_all_pass_witness :
  let steps := [Mock.step "ok200" 0 None; Mock.step "notfound404" 2 None] in
  tc_Failures tc0 = []
  /\ trace (snd (caseLoop Mock.getExecutorWrap Mock.applyChecks Mock.aliases
                   steps tc0 Mock.st0))
     = [] ++ map EvRun steps.
Proof.
  split; [reflexivity|].
  apply (RunnerFacts.runTestCase_all_pass Mock.getExecutorWrap
           Mock.applyChecks Mock.aliases
           [Mock.step "ok200" 0 None; Mock.step "notfound404" 2 None]
           tc0 Mock.st0); [|reflexivity].
  repeat (constructor;
          [eexists; split; [reflexivity|];
           split; [vm_compute; congruence|];
           split; [intros w; eexists _, _; reflexivity | reflexivity]|]).
  constructor.
Defined.

Lemma collectAll_order_witness :
  let a := setCounters (Mock.suite "a" [Mock.case "c" [] 0]) 2 0 0 in
  let b := setCounters (Mock.suite "b" [Mock.case "c" [] 1]) 0 0 2 in
  Permutation [a; b] [b; a]
  /\ tr_Total (collectAll [a; b]) = tr_Total (collectAll [b; a]).
Proof.
  assert (H : Permutation
                [setCounters (Mock.suite "a" [Mock.case "c" [] 0]) 2 0 0;
                 setCounters (Mock.suite "b" [Mock.case "c" [] 1]) 0 0 2]
                [setCounters (Mock.suite "b" [Mock.case "c" [] 1]) 0 0 2;
                 setCounters (Mock.suite "a" [Mock.case "c" [] 0]) 2 0 0])
    by apply perm_swap.
  split; [exact H|].
  exact (proj2 (proj2 (proj2 (AggregateFacts.collectAll_order _ _ H)))).
Defined.

End MoreExamples.

(** ** From the decoded suite to the collector *)
Module ProcessFacts.
Import GoInt GoIntFacts.

Section Suites.

Context {TestStep ResultMap World : Type}.
Variable getExecutorWrap : TestStep -> @resolved TestStep ResultMap World.
Variable applyChecks :
  @ExecutorResult ResultMap -> TestStep -> option StepAssertions ->
  bool * list Failure * list Failure.
Variable aliases : gmap string string.

Implicit Types (e : @executorWrap TestStep ResultMap World)
  (tc : @TestCase TestStep) (ts : @TestSuite TestStep)
  (st : @St TestStep World) (step : TestStep).

Local Abbreviation runTestStep' := (runTestStep applyChecks aliases).
Local Abbreviation completeSuite' :=
  (completeSuite getExecutorWrap applyChecks aliases).

(** X20: the suite that reaches the collector has the name of the decoded
    suite followed by the file name in brackets, and its [Total] is the
    number of its cases. *)
Theorem completeSuite_Total (f : string) ts st :
  let t := completeSuite' f ts st in
  ts_Name t = (ts_Name ts ++ " [" ++ f ++ "]")%string
  /\ ts_Total t = len (ts_TestCases t)
  /\ length (ts_TestCases t) = length (ts_TestCases ts).
Proof.
  destruct (RunnerFacts.suiteLoop_shape getExecutorWrap applyChecks aliases
              (ts_TestCases (prepareSuite f ts)) [] (prepareSuite f ts) st
              eq_refl)
    as (cases' & Hc & Hall & HN & _ & HT & _).
  cbv zeta. unfold completeSuite, runTestSuite. cbn [length app] in *.
  apply Forall2_length in Hall. cbn [prepareSuite ts_TestCases] in Hall.
  rewrite HN, HT, Hc. cbn [prepareSuite ts_Name ts_Total].
  unfold len. rewrite Hall. repeat split.
Qed.

(** X21: when the evaluator reports no Error with an OK answer, a step
    that adds an Error record to its case adds a Failure record too (the
    one that notes the attempts, if no other): this is why the case
    runner, which looks at the Failures only, also stops on Errors. *)
Theorem runTestStep_Error_brings_Failure e tc step st :
  retry e < max_int ->
  (forall es fs,
     applyChecks None step (GetDefaultAssertions (executor e)) = (true, es, fs)
     -> es = []) ->
  (length (tc_Errors tc) < length (tc_Errors (fst (runTestStep' e tc step st))))%nat ->
  (length (tc_Failures tc)
   < length (tc_Failures (fst (runTestStep' e tc step st))))%nat.
Proof.
  intros Hmax Hok.
  pose proof (StepFacts.runTestStep_spec applyChecks aliases e tc step st Hmax)
    as H.
  destruct (applyChecks None step (GetDefaultAssertions (executor e)))
    as [[ok0 es0] fs0] eqn:Hchk.
  cbv zeta in H. destruct H as (m & msgs & _ & _ & _ & _ & Hend).
  destruct Hend as [(-> & _ & H2 & H3)|[(_ & _ & H2 & H3)|(_ & _ & Hlt & H2 & H3)]].
  - rewrite (Hok es0 fs0 eq_refl) in H2. rewrite H2, app_nil_r. lia.
  - rewrite H2. lia.
  - rewrite H2, H3, !length_app. intros Hes.
    assert (Hpos : (len es0 >? 0) = true).
    { apply len_pos_iff. destruct es0; [simpl in Hes; lia | discriminate]. }
    assert (Hm : (Z.of_nat m >? 0) = true) by (apply Z.gtb_lt; lia).
    rewrite Hpos, Hm, orb_true_r. simpl. lia.
Qed.

End Suites.

Lemma runTestStep_Error_brings_Failure_witness :
  let s := Mock.step "ok200" 0 (Some 200) in
  let tc := Mock.case "case" [] 0 in
  let tc' := fst (Mock.runTestStep (Mock.binding s) tc s Mock.st0) in
  retry (Mock.binding s) < max_int
  /\ (length (tc_Errors tc) < length (tc_Errors tc'))%nat
  /\ (length (tc_Failures tc) < length (tc_Failures tc'))%nat.
Proof.
  intros s tc tc'.
  assert (Hb : retry (Mock.binding s) < max_int) by (vm_compute; reflexivity).
  assert (He : (length (tc_Errors tc) < length (tc_Errors tc'))%nat)
    by (vm_compute; lia).
  split; [exact Hb|]. split; [exact He|].
  apply (runTestStep_Error_brings_Failure Mock.applyChecks Mock.aliases
           (Mock.binding s) tc s Mock.st0 Hb).
  - intros es fs H. discriminate H.
  - exact He.
Defined.

Lemma collectAll_all_green_witness :
  let a := Mock.suite "a" [Mock.case "c" [] 0; Mock.case "d" [] 0] in
  let b := Mock.suite "b" [Mock.case "e" [] 0] in
  Forall (fun t => ts_Failures t = 0 /\ ts_Skipped t <= 0) [a; b]
  /\ tr_Total (collectAll [a; b]) = wrap (2 + (1 + 0))
  /\ tr_TotalOK (collectAll [a; b]) = wrap (2 + (1 + 0)).
Proof.
  assert (H : Forall (fun t : @TestSuite Mock.Step =>
                        ts_Failures t = 0 /\ ts_Skipped t <= 0)
                [Mock.suite "a" [Mock.case "c" [] 0; Mock.case "d" [] 0];
                 Mock.suite "b" [Mock.case "e" [] 0]])
    by (repeat constructor; cbn; lia).
  split; [exact H|].
  destruct (AggregateFacts.collectAll_all_green _ H) as (H1 & _ & _ & H4).
  split; [exact H4 | exact H1].
Defined.

End ProcessFacts.
